(** * Early-termination poll of the Snowman consensus engine

    A shallow embedding of [snow/consensus/snowman/poll]: the poll
    [earlyTermNoTraversalPoll], its factory and its per-reason metrics,
    together with the properties of the termination predicate. *)

From Stdlib Require Import ZArith Lia.
From stdpp Require Import base decidable option list gmap gmultiset strings.

Local Open Scope Z_scope.

(** ** Go's [int]

    The poll computes with Go's [int], 64 bits wide and signed on the
    platforms the node runs on: a value is a [Z] and an addition wraps. *)
Module GoInt.

Definition min_int : Z := - 2 ^ 63.
Definition max_int : Z := 2 ^ 63 - 1.

Definition wrap (z : Z) : Z := (z + 2 ^ 63) mod 2 ^ 64 - 2 ^ 63.

Definition add (a b : Z) : Z := wrap (a + b).

Definition in_range (z : Z) : Prop := min_int <= z <= max_int.

End GoInt.

(** ** Slices

    [s[i]] on a slice of ints with an [int] index: outside [0, len s) the
    access panics, which is [None] here. [len s] is a non-negative int, so
    [len s - 1] and an index [i + 1] below it do not wrap. *)
Definition index (s : list Z) (i : Z) : option Z :=
  if decide (0 <= i) then s !! Z.to_nat i else None.

Definition len (s : list Z) : Z := Z.of_nat (length s).

(** ** The bag of [utils/bag] *)
Module bag.
Section Bag.
Context {T : Type} `{Countable T} `{Inhabited T}.

(** Modelled from the spec: the package utils/bag (type Bag and its methods
    Count, Len, AddCount, Remove and Mode) is not among the sources. A bag
    maps a key to a positive count: a finite multiset. *)

(** Modelled from the spec: Bag.Count, the count for t, 0 if absent. *)
Definition Count (b : gmultiset T) (t : T) : Z := Z.of_nat (multiplicity t b).

(** Modelled from the spec: Bag.Len, the sum of the counts. *)
Definition Len (b : gmultiset T) : Z := Z.of_nat (size b).

(** Modelled from the spec: Bag.AddCount, which increments the count of t
    by n. Counts stay positive: an n <= 0 adds nothing (the poll only ever
    adds a count it has read from a bag). *)
Definition AddCount (b : gmultiset T) (t : T) (n : Z) : gmultiset T :=
  b ⊎ (Z.to_nat n *: {[+ t +]}).

(** Modelled from the spec: Bag.Remove, which drops all occurrences of t
    and returns its prior count. *)
Definition Remove (b : gmultiset T) (t : T) : gmultiset T * Z :=
  (b ∖ (multiplicity t b *: {[+ t +]}), Count b t).

(** Modelled from the spec: Bag.Mode, a key with the maximum count and
    that count; on the empty bag the zero key and 0. Among keys of equal
    count the choice is fixed and left unspecified. *)
Definition Mode (b : gmultiset T) : T * Z :=
  foldr (fun t acc => if decide (acc.2 < Count b t) then (t, Count b t) else acc)
        (inhabitant, 0) (elements (dom b)).

End Bag.
End bag.

(** ** Time

    An instant is a number of nanoseconds on the monotonic clock, read by the
    caller and handed to the operation that reads the clock. [time.Since]
    yields a [Duration], an int64 of nanoseconds, and saturates. *)
Definition time_Since (now start : Z) : Z :=
  Z.max GoInt.min_int (Z.min GoInt.max_int (now - start)).

(** ** Prometheus handles

    The client library is outside the repository. A gauge is the log of the
    values handed to [Add], most recent first (its value is their sum, in
    float64, which is not modelled); a counter is its number of [Inc]. Both
    carry the label set their vector was asked for. *)
Definition Labels : Type := list (string * string).

Record Gauge : Type := mkGauge { gauge_labels : Labels; gauge_added : list Z }.

Record Counter : Type := mkCounter { counter_labels : Labels; counter_value : nat }.

Definition Gauge_Add (g : Gauge) (x : Z) : Gauge :=
  mkGauge (gauge_labels g) (x :: gauge_added g).

Definition Counter_Inc (c : Counter) : Counter :=
  mkCounter (counter_labels c) (S (counter_value c)).

Inductive VecKind : Type := CounterVec | GaugeVec.

Record Collector : Type := mkCollector {
  vec_kind : VecKind;
  vec_name : string;
  vec_help : string;
  vec_label_names : list string
}.

Definition GaugeVec_With (v : Collector) (l : Labels) : Gauge := mkGauge l [].

Definition CounterVec_With (v : Collector) (l : Labels) : Counter := mkCounter l 0%nat.

(** ** Package [poll]: labels and metrics *)
Definition terminationReason : string := "reason".
Definition exhaustedReason : string := "exhausted".
Definition earlyFailReason : string := "early_fail".
Definition earlyAlphaPrefReason : string := "early_alpha_pref".
Definition earlyAlphaConfReason : string := "early_alpha_conf".

Definition exhaustedLabel : Labels := [(terminationReason, exhaustedReason)].
Definition earlyFailLabel : Labels := [(terminationReason, earlyFailReason)].
Definition earlyAlphaPrefLabel : Labels := [(terminationReason, earlyAlphaPrefReason)].
Definition earlyAlphaConfLabel : Labels := [(terminationReason, earlyAlphaConfReason)].

Inductive sentinel : Type :=
| errPollDurationVectorMetrics
| errPollCountVectorMetrics.

Record earlyTermNoTraversalMetrics : Type := mkMetrics {
  durExhaustedPolls : Gauge;
  durEarlyFailPolls : Gauge;
  durEarlyAlphaPrefPolls : Gauge;
  durEarlyAlphaConfPolls : Gauge;
  countExhaustedPolls : Counter;
  countEarlyFailPolls : Counter;
  countEarlyAlphaPrefPolls : Counter;
  countEarlyAlphaConfPolls : Counter
}.

Definition observeExhausted (m : earlyTermNoTraversalMetrics) (duration : Z)
  : earlyTermNoTraversalMetrics :=
  mkMetrics (Gauge_Add (durExhaustedPolls m) duration) (durEarlyFailPolls m)
            (durEarlyAlphaPrefPolls m) (durEarlyAlphaConfPolls m)
            (Counter_Inc (countExhaustedPolls m)) (countEarlyFailPolls m)
            (countEarlyAlphaPrefPolls m) (countEarlyAlphaConfPolls m).

Definition observeEarlyFail (m : earlyTermNoTraversalMetrics) (duration : Z)
  : earlyTermNoTraversalMetrics :=
  mkMetrics (durExhaustedPolls m) (Gauge_Add (durEarlyFailPolls m) duration)
            (durEarlyAlphaPrefPolls m) (durEarlyAlphaConfPolls m)
            (countExhaustedPolls m) (Counter_Inc (countEarlyFailPolls m))
            (countEarlyAlphaPrefPolls m) (countEarlyAlphaConfPolls m).

Definition observeEarlyAlphaPref (m : earlyTermNoTraversalMetrics) (duration : Z)
  : earlyTermNoTraversalMetrics :=
  mkMetrics (durExhaustedPolls m) (durEarlyFailPolls m)
            (Gauge_Add (durEarlyAlphaPrefPolls m) duration) (durEarlyAlphaConfPolls m)
            (countExhaustedPolls m) (countEarlyFailPolls m)
            (Counter_Inc (countEarlyAlphaPrefPolls m)) (countEarlyAlphaConfPolls m).

Definition observeEarlyAlphaConf (m : earlyTermNoTraversalMetrics) (duration : Z)
  : earlyTermNoTraversalMetrics :=
  mkMetrics (durExhaustedPolls m) (durEarlyFailPolls m)
            (durEarlyAlphaPrefPolls m) (Gauge_Add (durEarlyAlphaConfPolls m) duration)
            (countExhaustedPolls m) (countEarlyFailPolls m)
            (countEarlyAlphaPrefPolls m) (Counter_Inc (countEarlyAlphaConfPolls m)).

(** The two vectors [newEarlyTermNoTraversalMetrics] builds and registers. *)
Definition pollCountVec : Collector :=
  mkCollector CounterVec "poll_count" "Total # of terminated polls by reason"
              [terminationReason].

Definition durPollsVec : Collector :=
  mkCollector GaugeVec "poll_duration" "time (in ns) polls took to complete by reason"
              [terminationReason].

(** ** The metrics registry

    [prometheus.Registerer] is an interface of the client library: a registry
    is a state of some type, and [Register] answers with the new state and
    either nil or an error. *)
Section Registry.
Context {Registerer error : Type}.
Variable Register : Registerer -> Collector -> Registerer * option error.

(** [fmt.Errorf("%w: %w", s, cause)]: an error that wraps both. *)
Inductive wrapped : Type := Errorf (s : sentinel) (cause : error).

Definition newEarlyTermNoTraversalMetrics (reg : Registerer)
  : Registerer * (wrapped + earlyTermNoTraversalMetrics) :=
  match Register reg pollCountVec with
  | (reg1, Some err) => (reg1, inl (Errorf errPollCountVectorMetrics err))
  | (reg1, None) =>
    match Register reg1 durPollsVec with
    | (reg2, Some err) => (reg2, inl (Errorf errPollDurationVectorMetrics err))
    | (reg2, None) =>
      (reg2, inr (mkMetrics
                    (GaugeVec_With durPollsVec exhaustedLabel)
                    (GaugeVec_With durPollsVec earlyFailLabel)
                    (GaugeVec_With durPollsVec earlyAlphaPrefLabel)
                    (GaugeVec_With durPollsVec earlyAlphaConfLabel)
                    (CounterVec_With pollCountVec exhaustedLabel)
                    (CounterVec_With pollCountVec earlyFailLabel)
                    (CounterVec_With pollCountVec earlyAlphaPrefLabel)
                    (CounterVec_With pollCountVec earlyAlphaConfLabel)))
    end
  end.

(** The factory. Its [metrics] field points at the one object the
    constructor made, which every poll of the factory shares: that object is
    the explicit state [m] of the operations below, and the constructor hands
    back its initial value beside the factory. *)
Record earlyTermNoTraversalFactory : Type := mkFactory {
  f_alphaPreference : Z;
  f_alphaConfidence : Z;
  f_alphaConfidences : list Z
}.

Definition NewEarlyTermNoTraversalFactory (alphaPreference alphaConfidence : Z)
    (reg : Registerer) (alphaConfidences : list Z)
  : Registerer * (wrapped + (earlyTermNoTraversalFactory * earlyTermNoTraversalMetrics)) :=
  match newEarlyTermNoTraversalMetrics reg with
  | (reg', inl err) => (reg', inl err)
  | (reg', inr metrics) =>
    (reg', inr (mkFactory alphaPreference alphaConfidence alphaConfidences, metrics))
  end.

End Registry.

Arguments wrapped error : clear implicits.

(** ** The poll *)
Section Poll.
Context {NodeID ID : Type} `{Countable NodeID} `{Countable ID} `{Inhabited ID}.

(** [earlyTermNoTraversalPoll]. The [metrics] pointer is the shared object
    threaded through the operations; [start] is the instant of creation. *)
Record earlyTermNoTraversalPoll : Type := mkPoll {
  votes : gmultiset ID;
  polled : gmultiset NodeID;
  alphaPreference : Z;
  alphaConfidence : Z;
  confidences : list Z;
  start : Z;
  finished : bool
}.

(** [earlyTermNoTraversalFactory.New], at the instant [now]. The zero value of
    the votes bag is empty and the zero value of [finished] is false. *)
Definition New (f : earlyTermNoTraversalFactory) (vdrs : gmultiset NodeID) (now : Z)
  : earlyTermNoTraversalPoll :=
  mkPoll ∅ vdrs (f_alphaPreference f) (f_alphaConfidence f) (f_alphaConfidences f) now false.

(** [p.finished = true] *)
Definition set_finished (p : earlyTermNoTraversalPoll) : earlyTermNoTraversalPoll :=
  mkPoll (votes p) (polled p) (alphaPreference p) (alphaConfidence p) (confidences p)
         (start p) true.

(** [Vote] registers a response for this poll. *)
Definition Vote (p : earlyTermNoTraversalPoll) (vdr : NodeID) (vote : ID)
  : earlyTermNoTraversalPoll :=
  let count := bag.Count (polled p) vdr in
  let polled' := (bag.Remove (polled p) vdr).1 in
  let votes' := bag.AddCount (votes p) vote count in
  mkPoll votes' polled' (alphaPreference p) (alphaConfidence p) (confidences p)
         (start p) (finished p).

(** [Drop] any future response for this poll. *)
Definition Drop (p : earlyTermNoTraversalPoll) (vdr : NodeID) : earlyTermNoTraversalPoll :=
  mkPoll (votes p) (bag.Remove (polled p) vdr).1 (alphaPreference p) (alphaConfidence p)
         (confidences p) (start p) (finished p).

(** The loop of case 3b, over the indices [i = 0 .. len(confidences)-2]: the
    right operand of [&&] is evaluated only when the left one holds. *)
Fixpoint gapLoop (C : list Z) (freq maxPossibleVotes : Z) (indices : list Z) : option bool :=
  match indices with
  | [] => Some false
  | i :: rest =>
    ci ← index C i;
    if decide (freq >= ci) then
      ci1 ← index C (i + 1);
      if decide (maxPossibleVotes < ci1) then Some true
      else gapLoop C freq maxPossibleVotes rest
    else gapLoop C freq maxPossibleVotes rest
  end.

(** [shouldTerminateEarlyErrDriven]: the answer, the reason and the metrics
    after the call; [None] is an index out of range. *)
Definition shouldTerminateEarlyErrDriven (p : earlyTermNoTraversalPoll)
    (m : earlyTermNoTraversalMetrics) (now : Z) (freq maxPossibleVotes : Z)
  : option (bool * Z * earlyTermNoTraversalMetrics) :=
  top ← index (confidences p) (len (confidences p) - 1);
  if decide (freq >= top) then
    Some (true, 4, observeEarlyAlphaConf m (time_Since now (start p)))
  else if decide (freq < alphaPreference p) then Some (false, 0, m)
  else
    c0 ← index (confidences p) 0;
    if decide (maxPossibleVotes < c0) then
      Some (true, 3, observeEarlyAlphaPref m (time_Since now (start p)))
    else
      gap ← gapLoop (confidences p) freq maxPossibleVotes (seqZ 0 (len (confidences p) - 1));
      if gap : bool then Some (true, 3, observeEarlyAlphaPref m (time_Since now (start p)))
      else Some (false, 0, m).

(** [finishedAndReason], called at the instant [now]: the pair it returns,
    the poll and the metrics after the call. *)
Definition finishedAndReason (p : earlyTermNoTraversalPoll)
    (m : earlyTermNoTraversalMetrics) (now : Z)
  : option (bool * Z * earlyTermNoTraversalPoll * earlyTermNoTraversalMetrics) :=
  if finished p then Some (true, 0, p, m)
  else
    let remaining := bag.Len (polled p) in
    if decide (remaining = 0) then
      Some (true, 1, set_finished p, observeExhausted m (time_Since now (start p)))
    else
      let received := bag.Len (votes p) in
      let maxPossibleVotes := GoInt.add received remaining in
      if decide (maxPossibleVotes < alphaPreference p) then
        Some (true, 2, set_finished p, observeEarlyFail m (time_Since now (start p)))
      else
        let freq := (bag.Mode (votes p)).2 in
        if decide (len (confidences p) > 0) then
          '(fin, reason, m') ← shouldTerminateEarlyErrDriven p m now freq maxPossibleVotes;
          if fin : bool then Some (true, reason, set_finished p, m')
          else Some (false, 0, p, m')
        else if decide (freq >= alphaPreference p ∧ maxPossibleVotes < alphaConfidence p) then
          Some (true, 3, set_finished p, observeEarlyAlphaPref m (time_Since now (start p)))
        else if decide (freq >= alphaConfidence p) then
          Some (true, 4, set_finished p, observeEarlyAlphaConf m (time_Since now (start p)))
        else Some (false, 0, p, m).

(** [Finished] *)
Definition Finished (p : earlyTermNoTraversalPoll) (m : earlyTermNoTraversalMetrics) (now : Z)
  : option (bool * earlyTermNoTraversalPoll * earlyTermNoTraversalMetrics) :=
  '(fin, _, p', m') ← finishedAndReason p m now;
  Some (fin, p', m').

(** [Result] returns the result of this poll. *)
Definition Result (p : earlyTermNoTraversalPoll) : gmultiset ID := votes p.

(** ** Call sequences

    What the owning engine does with a poll: a call, its reply, and a run of
    calls over the poll and the metrics it shares. A run stops with [None]
    when a call panics. *)
Inductive call : Type :=
| CallVote (vdr : NodeID) (vote : ID)
| CallDrop (vdr : NodeID)
| CallFinished (now : Z)
| CallResult.

Inductive reply : Type :=
| Returned
| ReturnedBool (b : bool)
| ReturnedBag (r : gmultiset ID).

Definition step (c : call) (s : earlyTermNoTraversalPoll * earlyTermNoTraversalMetrics)
  : option (reply * (earlyTermNoTraversalPoll * earlyTermNoTraversalMetrics)) :=
  match c with
  | CallVote vdr vote => Some (Returned, (Vote s.1 vdr vote, s.2))
  | CallDrop vdr => Some (Returned, (Drop s.1 vdr, s.2))
  | CallFinished now =>
    '(fin, p', m') ← Finished s.1 s.2 now;
    Some (ReturnedBool fin, (p', m'))
  | CallResult => Some (ReturnedBag (Result s.1), s)
  end.

Fixpoint run (cs : list call) (s : earlyTermNoTraversalPoll * earlyTermNoTraversalMetrics)
  : option (list reply * (earlyTermNoTraversalPoll * earlyTermNoTraversalMetrics)) :=
  match cs with
  | [] => Some ([], s)
  | c :: cs' =>
    '(r, s') ← step c s;
    '(rs, s'') ← run cs' s';
    Some (r :: rs, s'')
  end.

End Poll.

Arguments earlyTermNoTraversalPoll NodeID ID {_ _ _ _}.
Arguments call NodeID ID : clear implicits.
Arguments reply ID {_ _}.

(** ** The specification's vocabulary

    The definitions below follow the words of the design document, not the
    code: the four termination reasons, what a call to [Finished] that closes
    the poll leaves behind, and the two termination predicates. *)
Inductive reason : Type := exhausted | early_fail | early_alpha_pref | early_alpha_conf.

Definition reason_code (r : reason) : Z :=
  match r with
  | exhausted => 1
  | early_fail => 2
  | early_alpha_pref => 3
  | early_alpha_conf => 4
  end.

(** One metric observation for a reason: one duration added to the gauge of
    that reason and one increment of its counter. *)
Definition observe (r : reason) (m : earlyTermNoTraversalMetrics) (duration : Z)
  : earlyTermNoTraversalMetrics :=
  match r with
  | exhausted => observeExhausted m duration
  | early_fail => observeEarlyFail m duration
  | early_alpha_pref => observeEarlyAlphaPref m duration
  | early_alpha_conf => observeEarlyAlphaConf m duration
  end.

(** The number of counter increments and of gauge additions recorded. *)
Definition observations (m : earlyTermNoTraversalMetrics) : nat :=
  counter_value (countExhaustedPolls m) + counter_value (countEarlyFailPolls m) +
  counter_value (countEarlyAlphaPrefPolls m) + counter_value (countEarlyAlphaConfPolls m).

Definition additions (m : earlyTermNoTraversalMetrics) : nat :=
  length (gauge_added (durExhaustedPolls m)) + length (gauge_added (durEarlyFailPolls m)) +
  length (gauge_added (durEarlyAlphaPrefPolls m)) +
  length (gauge_added (durEarlyAlphaConfPolls m)).

(** Single-threshold mode, rules 1 to 4 in order, the first match being the
    reason; [None] is "not finished". *)
Definition single_threshold_rule (remaining received freq alpha_preference alpha_confidence : Z)
  : option reason :=
  let max_possible := received + remaining in
  if decide (remaining = 0) then Some exhausted
  else if decide (max_possible < alpha_preference) then Some early_fail
  else if decide (freq >= alpha_preference ∧ max_possible < alpha_confidence)
       then Some early_alpha_pref
  else if decide (freq >= alpha_confidence) then Some early_alpha_conf
  else None.

(** Error-driven mode, rule 4: a gap between adjacent thresholds. *)
Definition gap (C : list Z) (freq max_possible : Z) : Prop :=
  exists (i : nat) (ci ci1 : Z),
    C !! i = Some ci /\ C !! S i = Some ci1 /\ freq >= ci /\ max_possible < ci1.

(** Error-driven mode: exhausted and early fail first, then the cascade over
    the thresholds [C]. *)
Inductive error_driven_rule (C : list Z) (remaining received freq alpha_preference : Z)
  : option reason -> Prop :=
| rule_exhausted :
    remaining = 0 ->
    error_driven_rule C remaining received freq alpha_preference (Some exhausted)
| rule_early_fail :
    remaining <> 0 -> received + remaining < alpha_preference ->
    error_driven_rule C remaining received freq alpha_preference (Some early_fail)
| rule_confidence top :
    remaining <> 0 -> alpha_preference <= received + remaining ->
    last C = Some top -> freq >= top ->
    error_driven_rule C remaining received freq alpha_preference (Some early_alpha_conf)
| rule_below_preference top :
    remaining <> 0 -> alpha_preference <= received + remaining ->
    last C = Some top -> freq < top -> freq < alpha_preference ->
    error_driven_rule C remaining received freq alpha_preference None
| rule_gap top c0 :
    remaining <> 0 -> alpha_preference <= received + remaining ->
    last C = Some top -> freq < top -> alpha_preference <= freq ->
    head C = Some c0 ->
    received + remaining < c0 \/ gap C freq (received + remaining) ->
    error_driven_rule C remaining received freq alpha_preference (Some early_alpha_pref)
| rule_open top c0 :
    remaining <> 0 -> alpha_preference <= received + remaining ->
    last C = Some top -> freq < top -> alpha_preference <= freq ->
    head C = Some c0 ->
    ~ (received + remaining < c0 \/ gap C freq (received + remaining)) ->
    error_driven_rule C remaining received freq alpha_preference None.

Section PollSpec.
Context {NodeID ID : Type} `{Countable NodeID} `{Countable ID} `{Inhabited ID}.

(** What [finishedAndReason] returns and leaves behind when the predicate
    answers [o] at the instant [now]: the latch set and one observation of
    the reason, or nothing changed. *)
Definition outcome (o : option reason) (p : earlyTermNoTraversalPoll NodeID ID)
    (m : earlyTermNoTraversalMetrics) (now : Z)
  : bool * Z * earlyTermNoTraversalPoll NodeID ID * earlyTermNoTraversalMetrics :=
  match o with
  | Some r => (true, reason_code r, set_finished p, observe r m (time_Since now (start p)))
  | None => (false, 0, p, m)
  end.

(** The lengths of the two bags are Go ints, and so is their sum: a poll
    starts with no votes and an outstanding bag whose length is an int. *)
Definition fits (p : earlyTermNoTraversalPoll NodeID ID) : Prop :=
  bag.Len (votes p) + bag.Len (polled p) <= GoInt.max_int.

(** The claim that a finished poll is frozen: [Vote] and [Drop] change
    neither bag once the flag is set. *)
Definition frozen_once_finished : Prop :=
  forall (p : earlyTermNoTraversalPoll NodeID ID) (vdr : NodeID) (id : ID),
    finished p = true ->
    (votes (Vote p vdr id) = votes p /\ polled (Vote p vdr id) = polled p) /\
    (votes (Drop p vdr) = votes p /\ polled (Drop p vdr) = polled p).

(** Two polls that differ at most in [alphaConfidence]. *)
Definition same_but_alphaConfidence (p q : earlyTermNoTraversalPoll NodeID ID) : Prop :=
  votes p = votes q /\ polled p = polled q /\ alphaPreference p = alphaPreference q /\
  confidences p = confidences q /\ start p = start q /\ finished p = finished q.

(** A single-threshold poll and the error-driven poll over the one threshold
    [alphaConfidence], equal in everything else. *)
Definition single_vs_error_driven (p q : earlyTermNoTraversalPoll NodeID ID) : Prop :=
  votes p = votes q /\ polled p = polled q /\ alphaPreference p = alphaPreference q /\
  alphaConfidence p = alphaConfidence q /\ start p = start q /\ finished p = finished q /\
  confidences p = [] /\ confidences q = [alphaConfidence q].

End PollSpec.

(** ** Worked polls

    Validators and vote ids are numbers; the registry is the list of the
    names it holds and rejects a name it already has. *)
Definition zero_metrics : earlyTermNoTraversalMetrics :=
  mkMetrics (GaugeVec_With durPollsVec exhaustedLabel)
            (GaugeVec_With durPollsVec earlyFailLabel)
            (GaugeVec_With durPollsVec earlyAlphaPrefLabel)
            (GaugeVec_With durPollsVec earlyAlphaConfLabel)
            (CounterVec_With pollCountVec exhaustedLabel)
            (CounterVec_With pollCountVec earlyFailLabel)
            (CounterVec_With pollCountVec earlyAlphaPrefLabel)
            (CounterVec_With pollCountVec earlyAlphaConfLabel).

Definition validators (first k : nat) : gmultiset nat := list_to_set_disj (seq first k).

Definition votes_for (id : nat) (first k : nat) : list (call nat nat) :=
  map (fun vdr => CallVote vdr id) (seq first k).

Definition drops (first k : nat) : list (call nat nat) := map CallDrop (seq first k).

(** One vote for id 1 out of two validators, alphas 1 and 1: [Finished]
    has returned true at instant 5 and validator 1 is still outstanding. *)
Definition closed_poll : earlyTermNoTraversalPoll nat nat :=
  mkPoll {[+ 1%nat +]} {[+ 1%nat +]} 1 1 [] 0 true.

(** Two votes for id 7 and one validator outstanding, alphas 2 and 5. *)
Definition preferred_poll : earlyTermNoTraversalPoll nat nat :=
  mkPoll {[+ 7%nat; 7%nat +]} {[+ 2%nat +]} 2 5 [] 0 false.

(** Thresholds 12 and 18 over twenty validators: twelve votes for id 1 and
    three drops leave five outstanding. *)
Definition gap_poll : earlyTermNoTraversalPoll nat nat :=
  mkPoll (12%nat *: {[+ 1%nat +]}) (validators 15 5) 12 18 [12; 18] 0 false.

(** Eighteen votes for id 1, two validators outstanding, thresholds 12 and
    18, and an [alphaConfidence] of 100 or of 18. *)
Definition confident_poll (alphaConfidence : Z) : earlyTermNoTraversalPoll nat nat :=
  mkPoll (18%nat *: {[+ 1%nat +]}) (validators 18 2) 12 alphaConfidence [12; 18] 0 false.

Definition Register_by_name (reg : list string) (c : Collector)
  : list string * option string :=
  if decide (vec_name c ∈ reg) then (reg, Some (vec_name c))
  else (vec_name c :: reg, None).

(** ** The analyzer

    [Analyzer] wraps a poll and traces the calls on standard output. A line
    of [fmt.Println] is kept as the list of its operands: how an id prints is
    settled by the ids package, outside this file. *)
Section AnalyzerDefs.
Context {NodeID ID : Type} `{Countable NodeID} `{Countable ID} `{Inhabited ID}.

Inductive operand : Type :=
| PrintString (s : string)
| PrintNodeID (vdr : NodeID)
| PrintID (id : ID)
| PrintInt (z : Z).

(** The dynamic type of a [Poll] value: the early-termination poll, or any
    other implementation of the interface. *)
Inductive PollValue : Type :=
| EarlyTermNoTraversalPoll (p : earlyTermNoTraversalPoll NodeID ID)
| OtherPoll.

Record Analyzer : Type := mkAnalyzer {
  Name : string;
  poll : earlyTermNoTraversalPoll NodeID ID
}.

(** [AnalyzerFactory]: a name and a [Factory], an interface whose [New]
    makes a poll from the validators, here at the instant [now]. *)
Record AnalyzerFactory : Type := mkAnalyzerFactory {
  af_Name : string;
  af_Factory : gmultiset NodeID -> Z -> PollValue
}.

(** [AnalyzerFactory.New]: the type assertion panics ([None]) on a poll of
    another implementation. *)
Definition AnalyzerFactory_New (af : AnalyzerFactory) (vdrs : gmultiset NodeID) (now : Z)
  : option Analyzer :=
  match af_Factory af vdrs now with
  | EarlyTermNoTraversalPoll p => Some (mkAnalyzer (af_Name af) p)
  | OtherPoll => None
  end.

(** The early-termination factory seen through the [Factory] interface. *)
Definition earlyTermFactory (f : earlyTermNoTraversalFactory)
  : gmultiset NodeID -> Z -> PollValue :=
  fun vdrs now => EarlyTermNoTraversalPoll (New f vdrs now).

Definition Analyzer_Vote (a : Analyzer) (out : list (list operand)) (vdr : NodeID) (vote : ID)
  : Analyzer * list (list operand) :=
  let out' := out ++ [[PrintString ">>>"; PrintString (Name a); PrintString "VOTE";
                       PrintNodeID vdr; PrintID vote]] in
  (mkAnalyzer (Name a) (Vote (poll a) vdr vote), out').

Definition Analyzer_Drop (a : Analyzer) (out : list (list operand)) (vdr : NodeID)
  : Analyzer * list (list operand) :=
  let out' := out ++ [[PrintString ">>>"; PrintString (Name a); PrintString "DROP";
                       PrintNodeID vdr]] in
  (mkAnalyzer (Name a) (Drop (poll a) vdr), out').

Definition Analyzer_Finished (a : Analyzer) (m : earlyTermNoTraversalMetrics)
    (out : list (list operand)) (now : Z)
  : option (bool * Analyzer * earlyTermNoTraversalMetrics * list (list operand)) :=
  '(finished, reason, p', m') ← finishedAndReason (poll a) m now;
  let out' := out ++ [[PrintString ">>>"; PrintString (Name a); PrintString "FINISHED";
                       PrintInt reason]] in
  Some (finished, mkAnalyzer (Name a) p', m', out').

Definition Analyzer_Result (a : Analyzer) : gmultiset ID := Result (poll a).

(** A call on the analyzer: its reply and the analyzer, the metrics and the
    output after it. *)
Definition analyzer_step (c : call NodeID ID)
    (s : Analyzer * earlyTermNoTraversalMetrics * list (list operand))
  : option (reply ID * (Analyzer * earlyTermNoTraversalMetrics * list (list operand))) :=
  let '(a, m, out) := s in
  match c with
  | CallVote vdr vote =>
    let '(a', out') := Analyzer_Vote a out vdr vote in Some (Returned, (a', m, out'))
  | CallDrop vdr =>
    let '(a', out') := Analyzer_Drop a out vdr in Some (Returned, (a', m, out'))
  | CallFinished now =>
    '(fin, a', m', out') ← Analyzer_Finished a m out now;
    Some (ReturnedBool fin, (a', m', out'))
  | CallResult => Some (ReturnedBag (Analyzer_Result a), s)
  end.

Fixpoint analyzer_run (cs : list (call NodeID ID))
    (s : Analyzer * earlyTermNoTraversalMetrics * list (list operand))
  : option (list (reply ID) * (Analyzer * earlyTermNoTraversalMetrics * list (list operand))) :=
  match cs with
  | [] => Some ([], s)
  | c :: cs' =>
    '(r, s') ← analyzer_step c s;
    '(rs, s'') ← analyzer_run cs' s';
    Some (r :: rs, s'')
  end.

(** The calls the analyzer prints a line for: all but [Result]. *)
Definition traced (c : call NodeID ID) : bool :=
  match c with
  | CallResult => false
  | _ => true
  end.

(** The lines of the output that report a reason other than 0. *)
Definition reports_a_reason (line : list operand) : bool :=
  match line with
  | [_; _; PrintString "FINISHED"; PrintInt reason] => negb (reason =? 0)
  | _ => false
  end.

(** ** Responses and several polls

    A response of a validator is its vote or its drop. The polls of one
    factory share the metrics: a pool is the polls the engine holds and a
    call names the poll it is for. *)
Definition respond (p : earlyTermNoTraversalPoll NodeID ID) (r : NodeID * option ID)
  : earlyTermNoTraversalPoll NodeID ID :=
  match r.2 with
  | Some vote => Vote p r.1 vote
  | None => Drop p r.1
  end.

Definition addresses (c : call NodeID ID) (vdr : NodeID) : Prop :=
  c = CallDrop vdr \/ exists vote, c = CallVote vdr vote.

Definition pool_step (ic : nat * call NodeID ID)
    (w : list (earlyTermNoTraversalPoll NodeID ID) * earlyTermNoTraversalMetrics)
  : option (reply ID *
            (list (earlyTermNoTraversalPoll NodeID ID) * earlyTermNoTraversalMetrics)) :=
  p ← w.1 !! ic.1;
  '(r, s') ← step ic.2 (p, w.2);
  Some (r, (<[ic.1 := s'.1]> w.1, s'.2)).

Fixpoint pool_run (cs : list (nat * call NodeID ID))
    (w : list (earlyTermNoTraversalPoll NodeID ID) * earlyTermNoTraversalMetrics)
  : option (list (reply ID) *
            (list (earlyTermNoTraversalPoll NodeID ID) * earlyTermNoTraversalMetrics)) :=
  match cs with
  | [] => Some ([], w)
  | c :: cs' =>
    '(r, w') ← pool_step c w;
    '(rs, w'') ← pool_run cs' w';
    Some (r :: rs, w'')
  end.

Definition finished_polls (ps : list (earlyTermNoTraversalPoll NodeID ID)) : nat :=
  length (filter (fun p => finished p = true) ps).

End AnalyzerDefs.

Arguments operand NodeID ID : clear implicits.
Arguments PollValue NodeID ID {_ _ _ _}.
Arguments Analyzer NodeID ID {_ _ _ _}.
Arguments AnalyzerFactory NodeID ID {_ _ _ _}.

(** The label each reason is counted under. *)
Definition reason_label (r : reason) : Labels :=
  match r with
  | exhausted => exhaustedLabel
  | early_fail => earlyFailLabel
  | early_alpha_pref => earlyAlphaPrefLabel
  | early_alpha_conf => earlyAlphaConfLabel
  end.

Definition counter_of (r : reason) (m : earlyTermNoTraversalMetrics) : Counter :=
  match r with
  | exhausted => countExhaustedPolls m
  | early_fail => countEarlyFailPolls m
  | early_alpha_pref => countEarlyAlphaPrefPolls m
  | early_alpha_conf => countEarlyAlphaConfPolls m
  end.

Definition gauge_of (r : reason) (m : earlyTermNoTraversalMetrics) : Gauge :=
  match r with
  | exhausted => durExhaustedPolls m
  | early_fail => durEarlyFailPolls m
  | early_alpha_pref => durEarlyAlphaPrefPolls m
  | early_alpha_conf => durEarlyAlphaConfPolls m
  end.

(** ** Package [tracker]: the last accepted block of each validator

    The methods take the lock for their whole body, so they are atomic and a
    history of calls is a sequence. A [set.Set] of node ids is a finite set
    and the frontier a finite map; a height is a uint64, only stored. *)
Module tracker.
Section Tracker.
Context {NodeID ID : Type} `{Countable NodeID} `{Inhabited ID}.

Record nodeStats : Type := mkNodeStats { blockID : ID; height : Z }.

Record accepted : Type := mkAccepted {
  validators : gset NodeID;
  frontier : gmap NodeID nodeStats
}.

Definition NewAccepted : accepted := mkAccepted ∅ ∅.

(** The public key, the transaction id and the weight are not read. *)
Definition OnValidatorAdded (a : accepted) (nodeID : NodeID) : accepted :=
  mkAccepted ({[nodeID]} ∪ validators a) (frontier a).

Definition OnValidatorRemoved (a : accepted) (nodeID : NodeID) : accepted :=
  mkAccepted (validators a ∖ {[nodeID]}) (delete nodeID (frontier a)).

Definition OnValidatorWeightChanged (a : accepted) (nodeID : NodeID) (oldWeight newWeight : Z)
  : accepted := a.

Definition SetLastAccepted (a : accepted) (nodeID : NodeID) (blk : ID) (h : Z) : accepted :=
  if decide (nodeID ∈ validators a)
  then mkAccepted (validators a) (<[nodeID := mkNodeStats blk h]> (frontier a))
  else a.

(** The zero [nodeStats] is the zero id and height 0. *)
Definition LastAccepted (a : accepted) (nodeID : NodeID) : ID * Z * bool :=
  match frontier a !! nodeID with
  | Some stats => (blockID stats, height stats, true)
  | None => (inhabitant, 0, false)
  end.

(** The calls that change the tracker, and a history of them. *)
Inductive event : Type :=
| ValidatorAdded (nodeID : NodeID)
| ValidatorRemoved (nodeID : NodeID)
| ValidatorWeightChanged (nodeID : NodeID) (oldWeight newWeight : Z)
| LastAcceptedSet (nodeID : NodeID) (blk : ID) (h : Z).

Definition apply_event (a : accepted) (e : event) : accepted :=
  match e with
  | ValidatorAdded n => OnValidatorAdded a n
  | ValidatorRemoved n => OnValidatorRemoved a n
  | ValidatorWeightChanged n w w' => OnValidatorWeightChanged a n w w'
  | LastAcceptedSet n blk h => SetLastAccepted a n blk h
  end.

Definition after (es : list event) : accepted := foldl apply_event NewAccepted es.

(** The events that name the node [n]. *)
Definition concerns (n : NodeID) (e : event) : bool :=
  match e with
  | ValidatorAdded n' => bool_decide (n' = n)
  | ValidatorRemoved n' => bool_decide (n' = n)
  | ValidatorWeightChanged n' _ _ => bool_decide (n' = n)
  | LastAcceptedSet n' _ _ => bool_decide (n' = n)
  end.

End Tracker.
End tracker.

Arguments tracker.nodeStats ID : clear implicits.
Arguments tracker.accepted NodeID ID {_ _}.
Arguments tracker.event NodeID ID : clear implicits.

(** ** Package [router]: metrics of the request router

    [errors.Join] drops the nil errors and is nil when none is left;
    otherwise it wraps the others in order. A plain counter or gauge is
    registered under its name. *)
Inductive MetricKind : Type := CounterMetric | GaugeMetric.

Record Metric : Type := mkMetric {
  metric_kind : MetricKind;
  metric_name : string;
  metric_help : string
}.

Record routerMetrics : Type := mkRouterMetrics {
  outstandingRequests : Metric;
  longestRunningRequest : Metric;
  droppedRequests : Metric;
  timeouts : Metric;
  issuedRequests : Metric
}.

Section Router.
Context {Registerer error : Type}.
Variable RegisterMetric : Registerer -> Metric -> Registerer * option error.

Definition errors_Join (errs : list (option error)) : option (list error) :=
  match omap id errs with
  | [] => None
  | es => Some es
  end.

Definition newRouterMetrics (registerer : Registerer)
  : Registerer * (routerMetrics * option (list error)) :=
  let issued := mkMetric CounterMetric "issued_requests" "Number of requests we have sent" in
  let timedOut := mkMetric CounterMetric "request_timeouts"
                           "Number of times a timeout occurred on a query" in
  let outstanding := mkMetric GaugeMetric "outstanding"
                              "Number of outstanding requests (all types)" in
  let longest := mkMetric GaugeMetric "longest_running"
                          "Time (in ns) the longest request took" in
  let dropped := mkMetric CounterMetric "dropped" "Number of dropped requests (all types)" in
  let rMetrics := mkRouterMetrics outstanding longest dropped timedOut issued in
  let '(reg1, e1) := RegisterMetric registerer (outstandingRequests rMetrics) in
  let '(reg2, e2) := RegisterMetric reg1 (longestRunningRequest rMetrics) in
  let '(reg3, e3) := RegisterMetric reg2 (droppedRequests rMetrics) in
  let '(reg4, e4) := RegisterMetric reg3 (timeouts rMetrics) in
  let '(reg5, e5) := RegisterMetric reg4 (issuedRequests rMetrics) in
  (reg5, (rMetrics, errors_Join [e1; e2; e3; e4; e5])).

End Router.

(** A registry of plain metrics by name, as [Register_by_name]. *)
Definition RegisterMetric_by_name (reg : list string) (c : Metric)
  : list string * option string :=
  if decide (metric_name c ∈ reg) then (reg, Some (metric_name c))
  else (metric_name c :: reg, None).

(** The registrations in order, each on the registry the one before left. *)
Fixpoint register_all {Registerer error : Type}
    (RegisterMetric : Registerer -> Metric -> Registerer * option error)
    (reg : Registerer) (cs : list Metric) : Registerer * list (option error) :=
  match cs with
  | [] => (reg, [])
  | c :: cs' =>
    let '(reg1, e) := RegisterMetric reg c in
    let '(reg2, es) := register_all RegisterMetric reg1 cs' in
    (reg2, e :: es)
  end.

(** ** Package [snowball]: the simulated network of the partition test

    The sampler is an interface outside the sources: [Sample] answers with
    its next state and the indices (uint64), or with a failure. A node is
    known by its preference. *)

(** Modelled from the spec: Bag.Add, which increments the count of t by one
    (add and add_count are the increments of the bag). *)
Definition bag_Add {T : Type} `{Countable T} (b : gmultiset T) (t : T) : gmultiset T :=
  bag.AddCount b t 1.

Section Network.
Context {ID : Type} `{Countable ID} {Sampler : Type}.
Variable Sample : Sampler -> Z -> Sampler * option (list Z).

(** The loop of [network.poll] over the sampled indices: an index outside
    the partition is skipped; [n.nodes[index]] panics ([None]) past the end
    of the slice. *)
Fixpoint poll_votes (nodes : list ID) (minPartitionIndex maxPartitionIndex : Z)
    (indices : list Z) (votes : gmultiset ID) : option (gmultiset ID) :=
  match indices with
  | [] => Some votes
  | idx :: rest =>
    if decide (idx < minPartitionIndex \/ idx > maxPartitionIndex)
    then poll_votes nodes minPartitionIndex maxPartitionIndex rest votes
    else
      preference ← nodes !! Z.to_nat idx;
      poll_votes nodes minPartitionIndex maxPartitionIndex rest (bag_Add votes preference)
  end.

(** [network.poll]: a failed sampling panics. *)
Definition network_poll (U : Sampler) (nodes : list ID)
    (minPartitionIndex maxPartitionIndex : Z) (k : Z) : option (Sampler * gmultiset ID) :=
  match Sample U k with
  | (U', Some indices) =>
    votes ← poll_votes nodes minPartitionIndex maxPartitionIndex indices ∅;
    Some (U', votes)
  | (_, None) => None
  end.

(** The sampled indices that lie in the partition. *)
Definition in_partition (minPartitionIndex maxPartitionIndex : Z) (indices : list Z) : list Z :=
  filter (fun idx => minPartitionIndex <= idx <= maxPartitionIndex) indices.

End Network.

(** * Properties *)

(** ** Go's [int] *)
Lemma wrap_in_range z : GoInt.in_range z -> GoInt.wrap z = z.
Proof.
  unfold GoInt.in_range, GoInt.min_int, GoInt.max_int, GoInt.wrap. intros Hz.
  rewrite Z.mod_small; lia.
Qed.

Lemma add_exact a b : GoInt.in_range (a + b) -> GoInt.add a b = a + b.
Proof. apply wrap_in_range. Qed.

(** ** Slices *)
Lemma index_Some s i x :
  index s i = Some x <-> 0 <= i < len s /\ s !! Z.to_nat i = Some x.
Proof.
  unfold index, len. case_decide; split.
  - intros Hx. split; [|done]. apply lookup_lt_Some in Hx. lia.
  - tauto.
  - done.
  - lia.
Qed.

Lemma index_in_range s i : 0 <= i < len s -> is_Some (index s i).
Proof.
  unfold index, len. intros Hi. rewrite decide_True by lia.
  apply lookup_lt_is_Some. lia.
Qed.

(** ** The bag *)
Section BagProps.
Context {T : Type} `{Countable T} `{Inhabited T}.
Implicit Types (b : gmultiset T) (t : T).

Lemma Count_nonneg b t : 0 <= bag.Count b t.
Proof. unfold bag.Count. lia. Qed.

Lemma Len_nonneg b : 0 <= bag.Len b.
Proof. unfold bag.Len. lia. Qed.

Lemma Len_empty : bag.Len (∅ : gmultiset T) = 0.
Proof. done. Qed.

Lemma Len_zero b : bag.Len b = 0 <-> b = ∅.
Proof. unfold bag.Len. rewrite <- gmultiset_size_empty_iff. lia. Qed.

Lemma Count_AddCount b t n t' :
  bag.Count (bag.AddCount b t n) t' =
  bag.Count b t' + (if decide (t' = t) then Z.max 0 n else 0).
Proof.
  unfold bag.Count, bag.AddCount.
  rewrite multiplicity_disj_union, multiplicity_scalar_mul, multiplicity_singleton.
  case_decide; lia.
Qed.

Lemma Len_AddCount b t n : bag.Len (bag.AddCount b t n) = bag.Len b + Z.max 0 n.
Proof.
  unfold bag.Len, bag.AddCount.
  rewrite gmultiset_size_disj_union, gmultiset_size_scalar_mul, gmultiset_size_singleton.
  lia.
Qed.

Lemma AddCount_nothing b t n : n <= 0 -> bag.AddCount b t n = b.
Proof.
  intros Hn. unfold bag.AddCount. replace (Z.to_nat n) with 0%nat by lia.
  multiset_solver.
Qed.

Lemma Count_Remove b t t' :
  bag.Count (bag.Remove b t).1 t' = if decide (t' = t) then 0 else bag.Count b t'.
Proof.
  unfold bag.Count, bag.Remove; simpl.
  rewrite multiplicity_difference, multiplicity_scalar_mul, multiplicity_singleton.
  case_decide; subst; lia.
Qed.

Lemma Remove_returns b t : (bag.Remove b t).2 = bag.Count b t.
Proof. done. Qed.

Lemma Len_Remove b t : bag.Len (bag.Remove b t).1 = bag.Len b - bag.Count b t.
Proof.
  unfold bag.Len, bag.Count, bag.Remove; simpl.
  assert (multiplicity t b *: {[+ t +]} ⊆ b) as Hsub.
  { intros x. rewrite multiplicity_scalar_mul, multiplicity_singleton.
    case_decide; subst; lia. }
  rewrite gmultiset_size_difference by done.
  apply gmultiset_subseteq_size in Hsub.
  rewrite gmultiset_size_scalar_mul, gmultiset_size_singleton in *. lia.
Qed.

Lemma Count_le_Len b t : bag.Count b t <= bag.Len b.
Proof.
  pose proof (Len_Remove b t). pose proof (Len_nonneg (bag.Remove b t).1). lia.
Qed.

Lemma Remove_absent b t : bag.Count b t = 0 -> (bag.Remove b t).1 = b.
Proof.
  unfold bag.Count, bag.Remove; simpl. intros Hc.
  replace (multiplicity t b) with 0%nat by lia. multiset_solver.
Qed.

Lemma Mode_fold_spec b (l : list T) :
  let r := foldr (fun t acc => if decide (acc.2 < bag.Count b t) then (t, bag.Count b t) else acc)
                 (inhabitant, 0) l in
  0 <= r.2 /\ (forall t, t ∈ l -> bag.Count b t <= r.2) /\
  (r = (inhabitant, 0) \/ (r.1 ∈ l /\ bag.Count b r.1 = r.2)).
Proof.
  induction l as [|x l IH]; simpl.
  - split; [lia|]. split; [|by left]. intros t Ht. by apply elem_of_nil in Ht.
  - destruct IH as (Hnn & Hmax & Hatt).
    set (r := foldr _ _ l) in *. case_decide as Hlt; simpl.
    + split; [pose proof (Count_nonneg b x); lia|]. split.
      * intros t [->|Ht]%elem_of_cons; [lia|]. specialize (Hmax t Ht). lia.
      * right. split; [left|done].
    + split; [done|]. split.
      * intros t [->|Ht]%elem_of_cons; [lia|]. by apply Hmax.
      * destruct Hatt as [Hr|[Hin Hc]]; [by left|]. right. split; [by right|done].
Qed.

Lemma Mode_empty : bag.Mode (∅ : gmultiset T) = (inhabitant, 0).
Proof. reflexivity. Qed.

Lemma Mode_freq_nonneg b : 0 <= (bag.Mode b).2.
Proof. apply (Mode_fold_spec b (elements (dom b))). Qed.

Lemma Mode_freq_max b t : bag.Count b t <= (bag.Mode b).2.
Proof.
  destruct (Mode_fold_spec b (elements (dom b))) as (Hnn & Hmax & _).
  destruct (decide (t ∈ b)) as [Hin|Hout].
  - apply Hmax. by rewrite elem_of_elements, gmultiset_elem_of_dom.
  - unfold bag.Count at 1. rewrite not_elem_of_multiplicity in Hout.
    rewrite Hout. exact Hnn.
Qed.

Lemma Mode_freq_attained b : b ≠ ∅ -> bag.Count b (bag.Mode b).1 = (bag.Mode b).2.
Proof.
  intros Hb. destruct (Mode_fold_spec b (elements (dom b))) as (_ & Hmax & Hatt).
  destruct Hatt as [Hr|[_ Hc]]; [|exact Hc].
  destruct (gmultiset_choose b Hb) as [x Hx].
  assert (bag.Count b x <= 0) as Hle.
  { fold (bag.Mode b) in Hr. pose proof (Mode_freq_max b x) as Hm.
    rewrite Hr in Hm. exact Hm. }
  rewrite elem_of_multiplicity in Hx. unfold bag.Count in Hle. lia.
Qed.

Lemma Mode_freq_le_Len b : (bag.Mode b).2 <= bag.Len b.
Proof.
  destruct (decide (b = ∅)) as [->|Hb].
  - by rewrite Mode_empty.
  - rewrite <- Mode_freq_attained by done. apply Count_le_Len.
Qed.

End BagProps.

(** ** The thresholds of the error-driven mode *)
Lemma index_nat (C : list Z) (i : nat) : index C (Z.of_nat i) = C !! i.
Proof. unfold index. rewrite decide_True by lia. by rewrite Nat2Z.id. Qed.

Lemma index_last (C : list Z) : index C (len C - 1) = last C.
Proof.
  unfold index, len. destruct C as [|c C] using rev_ind.
  - done.
  - rewrite length_app, last_snoc; simpl. rewrite decide_True by lia.
    replace (Z.to_nat _) with (length C) by lia.
    by rewrite lookup_app_r, Nat.sub_diag by lia.
Qed.

Lemma index_head (C : list Z) : index C 0 = head C.
Proof. unfold index; simpl. by destruct C. Qed.

Lemma gapLoop_spec (C : list Z) (freq maxPossibleVotes : Z) (indices : list Z) :
  (forall i, i ∈ indices -> 0 <= i /\ i + 1 < len C) ->
  exists b : bool,
    gapLoop C freq maxPossibleVotes indices = Some b /\
    (b = true <->
     exists i ci ci1, i ∈ indices /\ index C i = Some ci /\ index C (i + 1) = Some ci1 /\
                      freq >= ci /\ maxPossibleVotes < ci1).
Proof.
  induction indices as [|i rest IH]; intros Hin.
  - exists false. split; [done|]. split; [done|].
    intros (i & ? & ? & Hi & _). by apply elem_of_nil in Hi.
  - destruct IH as (b & Hb & Hspec).
    { intros j Hj. apply Hin. by right. }
    destruct (Hin i) as [Hi0 Hi1]; [by left|].
    destruct (index_in_range C i) as [ci Hci]; [lia|].
    destruct (index_in_range C (i + 1)) as [ci1 Hci1]; [lia|].
    simpl. rewrite Hci; simpl.
    destruct (decide (freq >= ci)) as [Hf|Hf]; [rewrite Hci1; simpl;
      destruct (decide (maxPossibleVotes < ci1)) as [Hm|Hm]|].
    + exists true. split; [done|]. split; [|done]. intros _.
      exists i, ci, ci1. repeat split; [by left|done..].
    + exists b. split; [done|]. rewrite Hspec. split.
      * intros (j & cj & cj1 & Hj & ?). exists j, cj, cj1. split; [by right|done].
      * intros (j & cj & cj1 & [->|Hj]%elem_of_cons & Hcj & Hcj1 & ? & ?).
        -- rewrite Hci1 in Hcj1. injection Hcj1 as <-. lia.
        -- exists j, cj, cj1. done.
    + exists b. split; [done|]. rewrite Hspec. split.
      * intros (j & cj & cj1 & Hj & ?). exists j, cj, cj1. split; [by right|done].
      * intros (j & cj & cj1 & [->|Hj]%elem_of_cons & Hcj & Hcj1 & ? & ?).
        -- rewrite Hci in Hcj. injection Hcj as <-. lia.
        -- exists j, cj, cj1. done.
Qed.

Lemma gapLoop_gap (C : list Z) (freq maxPossibleVotes : Z) :
  exists b : bool,
    gapLoop C freq maxPossibleVotes (seqZ 0 (len C - 1)) = Some b /\
    (b = true <-> gap C freq maxPossibleVotes).
Proof.
  destruct (gapLoop_spec C freq maxPossibleVotes (seqZ 0 (len C - 1))) as (b & Hb & Hspec).
  { intros i Hi. apply elem_of_seqZ in Hi. lia. }
  exists b. split; [done|]. rewrite Hspec. unfold gap. split.
  - intros (i & ci & ci1 & Hi & Hci & Hci1 & ? & ?).
    apply elem_of_seqZ in Hi. exists (Z.to_nat i), ci, ci1.
    rewrite <- !index_nat. replace (Z.of_nat (S (Z.to_nat i))) with (i + 1) by lia.
    rewrite Z2Nat.id by lia. done.
  - intros (i & ci & ci1 & Hci & Hci1 & ? & ?).
    exists (Z.of_nat i), ci, ci1. rewrite index_nat.
    replace (Z.of_nat i + 1) with (Z.of_nat (S i)) by lia. rewrite index_nat.
    split; [|done]. apply elem_of_seqZ. apply lookup_lt_Some in Hci1. unfold len. lia.
Qed.

(** ** The termination predicate *)
Section PollProps.
Context {NodeID ID : Type} `{Countable NodeID} `{Countable ID} `{Inhabited ID}.
Implicit Types (p q : earlyTermNoTraversalPoll NodeID ID) (m : earlyTermNoTraversalMetrics).
Implicit Types (now freq maxPossibleVotes : Z).

Lemma fits_add p :
  fits p -> GoInt.add (bag.Len (votes p)) (bag.Len (polled p))
            = bag.Len (votes p) + bag.Len (polled p).
Proof.
  unfold fits. intros Hp. apply add_exact.
  pose proof (Len_nonneg (votes p)). pose proof (Len_nonneg (polled p)).
  unfold GoInt.in_range, GoInt.min_int, GoInt.max_int in *. lia.
Qed.

Lemma len_pos_iff (C : list Z) : len C > 0 <-> C <> [].
Proof. unfold len. destruct C; simpl; [|split; [done|lia]]. split; [lia|done]. Qed.

Lemma shouldTerminateEarlyErrDriven_cases p m now freq maxPossibleVotes :
  confidences p <> [] ->
  exists (top c0 : Z) (b : bool),
    last (confidences p) = Some top /\ head (confidences p) = Some c0 /\
    (b = true <-> gap (confidences p) freq maxPossibleVotes) /\
    shouldTerminateEarlyErrDriven p m now freq maxPossibleVotes =
    Some (if decide (freq >= top)
          then (true, 4, observeEarlyAlphaConf m (time_Since now (start p)))
          else if decide (freq < alphaPreference p) then (false, 0, m)
          else if decide (maxPossibleVotes < c0)
          then (true, 3, observeEarlyAlphaPref m (time_Since now (start p)))
          else if b then (true, 3, observeEarlyAlphaPref m (time_Since now (start p)))
          else (false, 0, m)).
Proof.
  intros HC. unfold shouldTerminateEarlyErrDriven.
  rewrite index_last, index_head.
  destruct (gapLoop_gap (confidences p) freq maxPossibleVotes) as (b & -> & Hb).
  destruct (last (confidences p)) as [top|] eqn:Htop.
  2: { by apply last_None in Htop. }
  destruct (head (confidences p)) as [c0|] eqn:Hc0.
  2: { by apply head_None in Hc0. }
  exists top, c0, b. repeat split; [apply Hb..|]. simpl.
  repeat case_decide; try done. by destruct b.
Qed.

Lemma error_driven_rule_functional C remaining received freq alpha_preference o1 o2 :
  error_driven_rule C remaining received freq alpha_preference o1 ->
  error_driven_rule C remaining received freq alpha_preference o2 ->
  o1 = o2.
Proof.
  intros Hr1 Hr2. destruct Hr1, Hr2; simplify_eq; done || lia || tauto.
Qed.

Lemma outcome_inj o1 o2 p m now :
  outcome o1 p m now = outcome o2 p m now -> o1 = o2.
Proof.
  destruct o1 as [[]|], o2 as [[]|]; simpl; intros Heq; by simplify_eq.
Qed.

Lemma finishedAndReason_error_driven p m now :
  confidences p <> [] -> finished p = false -> fits p ->
  exists o,
    error_driven_rule (confidences p) (bag.Len (polled p)) (bag.Len (votes p))
                      (bag.Mode (votes p)).2 (alphaPreference p) o /\
    finishedAndReason p m now = Some (outcome o p m now).
Proof.
  intros HC Hopen Hfits. unfold finishedAndReason. rewrite Hopen, (fits_add p Hfits).
  set (remaining := bag.Len (polled p)). set (received := bag.Len (votes p)).
  set (freq := (bag.Mode (votes p)).2).
  destruct (decide (remaining = 0)) as [Hr|Hr].
  { exists (Some exhausted). split; [by constructor|done]. }
  destruct (decide (received + remaining < alphaPreference p)) as [Hf|Hf].
  { exists (Some early_fail). split; [by constructor|done]. }
  rewrite decide_True by by apply len_pos_iff.
  destruct (shouldTerminateEarlyErrDriven_cases p m now freq (received + remaining) HC)
    as (top & c0 & b & Htop & Hc0 & Hb & ->). simpl.
  destruct (decide (freq >= top)) as [Ht|Ht].
  { exists (Some early_alpha_conf). split; [|done]. apply (rule_confidence _ _ _ _ _ top); lia || done. }
  destruct (decide (freq < alphaPreference p)) as [Hp|Hp].
  { exists None. split; [|done]. apply (rule_below_preference _ _ _ _ _ top); lia || done. }
  destruct (decide (received + remaining < c0)) as [Hc|Hc].
  { exists (Some early_alpha_pref). split; [|done].
    apply (rule_gap _ _ _ _ _ top c0); lia || done. }
  destruct b.
  - exists (Some early_alpha_pref). split; [|done].
    apply (rule_gap _ _ _ _ _ top c0); try (lia || done). right. by apply Hb.
  - exists None. split; [|done].
    apply (rule_open _ _ _ _ _ top c0); try (lia || done).
    intros [?|Hg]; [lia|]. apply Hb in Hg. done.
Qed.

(** C2. Error-driven mode: on an open poll with thresholds [C], [Finished]
    applies the exhausted rule, then the early-fail rule, then the cascade:
    early alpha-confidence when [freq >= C[last]]; else open when
    [freq < alphaPreference]; else early alpha-preference when
    [max_possible < C[0]] or some adjacent pair has [freq >= C[i]] and
    [max_possible < C[i+1]]; else open. The predicate always has an answer,
    and [finishedAndReason] returns and records exactly that answer. *)
Theorem error_driven_termination p m now :
  confidences p <> [] -> finished p = false -> fits p ->
  (exists o, error_driven_rule (confidences p) (bag.Len (polled p)) (bag.Len (votes p))
                               (bag.Mode (votes p)).2 (alphaPreference p) o) /\
  (forall o,
      error_driven_rule (confidences p) (bag.Len (polled p)) (bag.Len (votes p))
                        (bag.Mode (votes p)).2 (alphaPreference p) o <->
      finishedAndReason p m now = Some (outcome o p m now)) /\
  (forall o,
      finishedAndReason p m now = Some (outcome o p m now) ->
      Finished p m now =
      Some (bool_decide (is_Some o), (outcome o p m now).1.2, (outcome o p m now).2)).
Proof.
  intros HC Hopen Hfits.
  destruct (finishedAndReason_error_driven p m now HC Hopen Hfits) as (o0 & Hrule & Hrun).
  split; [by exists o0|]. split.
  - intros o. split.
    + intros Ho. by rewrite (error_driven_rule_functional _ _ _ _ _ _ _ Ho Hrule).
    + rewrite Hrun. intros [= Heq]. by rewrite <- (outcome_inj _ _ _ _ _ Heq).
  - intros o Ho. unfold Finished. rewrite Ho. by destruct o.
Qed.

(** C1. Single-threshold mode: on an open poll with no thresholds,
    [Finished] answers by the four rules in order (exhausted, early fail,
    early alpha-preference, early alpha-confidence), the first match being
    the recorded reason; it returns true exactly when one of them holds, and
    the mode frequency of an empty tally is 0. *)
Theorem single_threshold_termination p m now :
  confidences p = [] -> finished p = false -> fits p ->
  let remaining := bag.Len (polled p) in
  let received := bag.Len (votes p) in
  let freq := (bag.Mode (votes p)).2 in
  let o := single_threshold_rule remaining received freq
                                 (alphaPreference p) (alphaConfidence p) in
  finishedAndReason p m now = Some (outcome o p m now) /\
  Finished p m now =
    Some (bool_decide (is_Some o), (outcome o p m now).1.2, (outcome o p m now).2) /\
  ((exists p' m', Finished p m now = Some (true, p', m')) <->
   remaining = 0 \/
   received + remaining < alphaPreference p \/
   (freq >= alphaPreference p /\ received + remaining < alphaConfidence p) \/
   freq >= alphaConfidence p) /\
  (votes p = ∅ -> freq = 0).
Proof.
  intros HC Hopen Hfits remaining received freq o.
  assert (finishedAndReason p m now = Some (outcome o p m now)) as Hrun.
  { unfold finishedAndReason. rewrite Hopen, (fits_add p Hfits), HC.
    subst o. unfold single_threshold_rule. fold remaining received freq.
    repeat case_decide; try done; unfold len in *; simpl in *; lia. }
  assert (Finished p m now =
          Some (bool_decide (is_Some o), (outcome o p m now).1.2, (outcome o p m now).2))
    as Hfin.
  { unfold Finished. rewrite Hrun. by destruct o. }
  split; [done|]. split; [done|]. split.
  - rewrite Hfin. subst o. unfold single_threshold_rule.
    split.
    + intros (p' & m' & [= Hb _ _]). apply bool_decide_eq_true in Hb as [r Hr].
      repeat case_decide; simplify_eq; tauto.
    + intros Hrules. repeat case_decide; try (by eexists _, _); exfalso; tauto.
  - intros Hv. subst freq. by rewrite Hv, Mode_empty.
Qed.

Lemma finishedAndReason_total p m now : is_Some (finishedAndReason p m now).
Proof.
  unfold finishedAndReason. destruct (finished p); [done|].
  repeat case_decide; try done.
  match goal with |- context [shouldTerminateEarlyErrDriven p m now ?f ?v] =>
    destruct (shouldTerminateEarlyErrDriven_cases p m now f v)
      as (top & c0 & b & _ & _ & _ & ->); [by apply len_pos_iff|] end.
  simpl. repeat case_decide; try done. by destruct b.
Qed.

Lemma step_total c (s : earlyTermNoTraversalPoll NodeID ID * earlyTermNoTraversalMetrics) :
  is_Some (step c s).
Proof.
  destruct c as [vdr vote|vdr|t|]; simpl; try done. unfold Finished.
  destruct (finishedAndReason_total s.1 s.2 t) as [[[[fin r] p'] m'] ->]. done.
Qed.

Lemma run_total cs (s : earlyTermNoTraversalPoll NodeID ID * earlyTermNoTraversalMetrics) :
  is_Some (run cs s).
Proof.
  revert s. induction cs as [|c cs IH]; intros s; simpl; [done|].
  destruct (step_total c s) as [[r s'] ->]. simpl.
  destruct (IH s') as [[rs s''] ->]. done.
Qed.

(** C9. The thresholds are read at [len-1], [0], [i] and [i+1] only in
    [shouldTerminateEarlyErrDriven], which [finishedAndReason] enters only
    when there is a threshold: with one, every read is in range and the
    function returns; without the guard the first read would panic. Hence
    [finishedAndReason], [Finished] and every run of calls return, in every
    poll state and in both modes. *)
Theorem Finished_never_panics :
  (forall p m now freq maxPossibleVotes,
      confidences p <> [] ->
      is_Some (shouldTerminateEarlyErrDriven p m now freq maxPossibleVotes)) /\
  (forall p m now freq maxPossibleVotes,
      confidences p = [] ->
      shouldTerminateEarlyErrDriven p m now freq maxPossibleVotes = None) /\
  (forall p m now,
      is_Some (finishedAndReason p m now) /\ is_Some (Finished p m now)) /\
  (forall cs (s : earlyTermNoTraversalPoll NodeID ID * earlyTermNoTraversalMetrics),
      is_Some (run cs s)).
Proof.
  split; [|split; [|split]].
  - intros p m now freq v HC.
    destruct (shouldTerminateEarlyErrDriven_cases p m now freq v HC)
      as (top & c0 & b & _ & _ & _ & ->). done.
  - intros p m now freq v HC. unfold shouldTerminateEarlyErrDriven. by rewrite HC.
  - intros p m now. split; [apply finishedAndReason_total|].
    unfold Finished.
    destruct (finishedAndReason_total p m now) as [[[[fin r] p'] m'] ->]. done.
  - apply run_total.
Qed.

(** ** [Vote] and [Drop] *)
Lemma Vote_Len_votes p vdr id :
  bag.Len (votes (Vote p vdr id)) = bag.Len (votes p) + bag.Count (polled p) vdr.
Proof.
  unfold Vote; cbn [votes polled finished start]. rewrite Len_AddCount. pose proof (Count_nonneg (polled p) vdr). lia.
Qed.

Lemma Vote_Len_polled p vdr id :
  bag.Len (polled (Vote p vdr id)) = bag.Len (polled p) - bag.Count (polled p) vdr.
Proof. unfold Vote; cbn [votes polled finished start]. apply Len_Remove. Qed.

Lemma Drop_Len_polled p vdr :
  bag.Len (polled (Drop p vdr)) = bag.Len (polled p) - bag.Count (polled p) vdr.
Proof. unfold Drop; cbn [votes polled finished start]. apply Len_Remove. Qed.

Lemma Remove_same_iff (b : gmultiset NodeID) vdr :
  (bag.Remove b vdr).1 = b <-> bag.Count b vdr = 0.
Proof.
  split; [|apply Remove_absent].
  intros Heq. pose proof (Count_Remove b vdr vdr) as Hc.
  rewrite Heq, decide_True in Hc by done. exact Hc.
Qed.

Lemma AddCount_same_iff (b : gmultiset ID) id n : bag.AddCount b id n = b <-> n <= 0.
Proof.
  split; [|apply AddCount_nothing].
  intros Heq. pose proof (Len_AddCount b id n) as Hl. rewrite Heq in Hl. lia.
Qed.

(** C4. [Vote(v, id)] with [c = outstanding.count(v)]: when [c > 0], [v]
    leaves the outstanding bag, the count of [id] in the tally grows by
    exactly [c] and no other count changes; when [c = 0] the tally is
    unchanged. A second vote of the same validator adds nothing. *)
Theorem Vote_moves_the_count p (v : NodeID) (id : ID) :
  let c := bag.Count (polled p) v in
  (c > 0 ->
   bag.Count (polled (Vote p v id)) v = 0 /\
   bag.Count (votes (Vote p v id)) id = bag.Count (votes p) id + c /\
   (forall id', id' <> id -> bag.Count (votes (Vote p v id)) id' = bag.Count (votes p) id') /\
   (forall v', v' <> v -> bag.Count (polled (Vote p v id)) v' = bag.Count (polled p) v')) /\
  (c = 0 -> votes (Vote p v id) = votes p /\ polled (Vote p v id) = polled p) /\
  (forall id2, votes (Vote (Vote p v id) v id2) = votes (Vote p v id)).
Proof.
  intros c. split; [|split].
  - intros Hc. unfold Vote; cbn [votes polled finished start]. fold c. repeat split.
    + by rewrite Count_Remove, decide_True.
    + rewrite Count_AddCount, decide_True by done. lia.
    + intros id' Hne. rewrite Count_AddCount, decide_False by done. lia.
    + intros v' Hne. by rewrite Count_Remove, decide_False.
  - intros Hc. unfold Vote; cbn [votes polled finished start]. fold c. rewrite Hc. split.
    + by apply AddCount_nothing.
    + by apply Remove_absent.
  - intros id2. unfold Vote at 1; cbn [votes polled finished start]. apply AddCount_nothing.
    unfold Vote; cbn [votes polled finished start]. by rewrite Count_Remove, decide_True.
Qed.

(** C3, as the code has it. [Vote] and [Drop] never read the [finished]
    flag: on a finished poll they keep it set and do what they do on an open
    one. They leave the tally and the outstanding bag unchanged exactly when
    the validator has no outstanding count; otherwise the validator leaves
    the outstanding bag and [Vote] adds its count to the tally. *)
Theorem Vote_Drop_on_finished_poll p (vdr : NodeID) (id : ID) :
  finished p = true ->
  let c := bag.Count (polled p) vdr in
  (finished (Vote p vdr id) = true /\ finished (Drop p vdr) = true) /\
  (votes (Vote p vdr id) = votes p /\ polled (Vote p vdr id) = polled p <-> c = 0) /\
  (votes (Drop p vdr) = votes p /\ polled (Drop p vdr) = polled p <-> c = 0) /\
  (c > 0 ->
   bag.Count (polled (Vote p vdr id)) vdr = 0 /\
   bag.Count (polled (Drop p vdr)) vdr = 0 /\
   bag.Count (votes (Vote p vdr id)) id = bag.Count (votes p) id + c).
Proof.
  intros Hfin c. subst c. pose proof (Count_nonneg (polled p) vdr) as Hnn.
  split; [done|]. split; [|split].
  - unfold Vote; cbn [votes polled]. rewrite Remove_same_iff, AddCount_same_iff. lia.
  - unfold Drop; cbn [votes polled]. rewrite Remove_same_iff. tauto.
  - intros Hc. unfold Vote, Drop; cbn [votes polled].
    rewrite !Count_Remove, Count_AddCount, !decide_True by done. lia.
Qed.

(** ** Runs of calls *)
Lemma finishedAndReason_shape p m now fin code p' m' :
  finishedAndReason p m now = Some (fin, code, p', m') ->
  (fin = finished p /\ code = 0 /\ p' = p /\ m' = m) \/
  (finished p = false /\ fin = true /\ p' = set_finished p /\
   exists r, code = reason_code r /\ m' = observe r m (time_Since now (start p))).
Proof.
  unfold finishedAndReason. destruct (finished p) eqn:Hopen.
  { intros [= <- <- <- <-]. by left. }
  assert (forall r, Some (true, reason_code r, set_finished p,
                          observe r m (time_Since now (start p))) = Some (fin, code, p', m') ->
          fin = true /\ p' = set_finished p /\
          exists r, code = reason_code r /\ m' = observe r m (time_Since now (start p)))
    as Hclose.
  { intros r [= <- <- <- <-]. eauto. }
  case_decide. { intros Hr. right. split; [done|]. by apply (Hclose exhausted). }
  case_decide. { intros Hr. right. split; [done|]. by apply (Hclose early_fail). }
  case_decide.
  - match goal with |- context [shouldTerminateEarlyErrDriven p m now ?f ?v] =>
      destruct (shouldTerminateEarlyErrDriven_cases p m now f v)
        as (top & c0 & b & _ & _ & _ & ->); [by apply len_pos_iff|] end.
    simpl.
    case_decide. { intros Hr. right. split; [done|]. by apply (Hclose early_alpha_conf). }
    case_decide. { intros [= <- <- <- <-]. by left. }
    case_decide. { intros Hr. right. split; [done|]. by apply (Hclose early_alpha_pref). }
    destruct b.
    + intros Hr. right. split; [done|]. by apply (Hclose early_alpha_pref).
    + intros [= <- <- <- <-]. by left.
  - case_decide. { intros Hr. right. split; [done|]. by apply (Hclose early_alpha_pref). }
    case_decide. { intros Hr. right. split; [done|]. by apply (Hclose early_alpha_conf). }
    intros [= <- <- <- <-]. by left.
Qed.

Lemma run_app cs1 cs2 (s : earlyTermNoTraversalPoll NodeID ID * earlyTermNoTraversalMetrics) :
  run (cs1 ++ cs2) s =
  '(rs1, s1) ← run cs1 s; '(rs2, s2) ← run cs2 s1; Some (rs1 ++ rs2, s2).
Proof.
  revert s. induction cs1 as [|c cs1 IH]; intros s; simpl.
  - destruct (run cs2 s) as [[rs2 s2]|]; done.
  - destruct (step c s) as [[r s']|]; simpl; [|done]. rewrite IH.
    destruct (run cs1 s') as [[rs1 s1]|]; simpl; [|done].
    destruct (run cs2 s1) as [[rs2 s2]|]; done.
Qed.

Lemma step_frame c p m r p' m' :
  step c (p, m) = Some (r, (p', m')) ->
  bag.Len (votes p') + bag.Len (polled p') <= bag.Len (votes p) + bag.Len (polled p) /\
  bag.Len (polled p') <= bag.Len (polled p) /\
  bag.Len (votes p) <= bag.Len (votes p') /\
  start p' = start p.
Proof.
  destruct c as [vdr vote|vdr|t|]; simpl.
  - intros [= <- <- <-]. rewrite Vote_Len_votes, Vote_Len_polled.
    pose proof (Count_nonneg (polled p) vdr). split_and!; [lia..|done].
  - intros [= <- <- <-]. rewrite Drop_Len_polled.
    pose proof (Count_nonneg (polled p) vdr). unfold Drop; cbn [votes start].
    split_and!; [lia..|done].
  - unfold Finished. destruct (finishedAndReason p m t) as [[[[fin code] q] m1]|] eqn:Hf;
      simpl; [|done].
    intros [= <- <- <-].
    apply finishedAndReason_shape in Hf as [(_ & _ & -> & _)|(_ & _ & -> & _)]; simpl;
      split_and!; lia || done.
  - intros [= <- <- <-]. split_and!; lia || done.
Qed.

Lemma run_frame cs p m rs p' m' :
  run cs (p, m) = Some (rs, (p', m')) ->
  bag.Len (votes p') + bag.Len (polled p') <= bag.Len (votes p) + bag.Len (polled p) /\
  bag.Len (polled p') <= bag.Len (polled p) /\
  bag.Len (votes p) <= bag.Len (votes p') /\
  start p' = start p.
Proof.
  revert p m rs. induction cs as [|c cs IH]; intros p m rs; simpl.
  - intros [= <- <- <-]. split_and!; lia || done.
  - destruct (step c (p, m)) as [[r [p1 m1]]|] eqn:Hs; simpl; [|done].
    destruct (run cs (p1, m1)) as [[rs1 [p2 m2]]|] eqn:Hr; simpl; [|done].
    intros [= <- <- <-]. apply step_frame in Hs. apply IH in Hr.
    destruct Hs as (? & ? & ? & ?), Hr as (? & ? & ? & ?). split_and!; lia || congruence.
Qed.

Lemma polls_of_the_factory_fit (f : earlyTermNoTraversalFactory) (vdrs : gmultiset NodeID)
    (t0 : Z) m cs rs p' m' :
  bag.Len vdrs <= GoInt.max_int ->
  run cs (New f vdrs t0, m) = Some (rs, (p', m')) ->
  fits p'.
Proof.
  intros Hk Hrun. apply run_frame in Hrun as (Hsum & _).
  simpl in Hsum. rewrite Len_empty in Hsum. unfold fits. lia.
Qed.

(** C5. From a poll seeded with an outstanding bag of length [k], after any
    calls [cs1] and any further calls [cs2]: the sum of the two lengths is at
    most [k] and did not grow over [cs2], and neither did the outstanding
    length; [Vote] keeps the sum and [Drop] lowers it by the count it
    removes. *)
Theorem accumulation_is_bounded (f : earlyTermNoTraversalFactory)
    (vdrs : gmultiset NodeID) (t0 : Z) m (cs1 cs2 : list (call NodeID ID)) :
  exists rs1 p1 m1 rs2 p2 m2,
    run cs1 (New f vdrs t0, m) = Some (rs1, (p1, m1)) /\
    run cs2 (p1, m1) = Some (rs2, (p2, m2)) /\
    run (cs1 ++ cs2) (New f vdrs t0, m) = Some (rs1 ++ rs2, (p2, m2)) /\
    bag.Len (votes p2) + bag.Len (polled p2) <= bag.Len (votes p1) + bag.Len (polled p1) /\
    bag.Len (votes p1) + bag.Len (polled p1) <= bag.Len vdrs /\
    bag.Len (polled p2) <= bag.Len (polled p1) /\
    bag.Len (polled p1) <= bag.Len vdrs /\
    (forall vdr id,
        bag.Len (votes (Vote p1 vdr id)) + bag.Len (polled (Vote p1 vdr id))
        = bag.Len (votes p1) + bag.Len (polled p1)) /\
    (forall vdr,
        bag.Len (votes (Drop p1 vdr)) + bag.Len (polled (Drop p1 vdr))
        = bag.Len (votes p1) + bag.Len (polled p1) - bag.Count (polled p1) vdr /\
        0 <= bag.Count (polled p1) vdr).
Proof.
  destruct (run_total cs1 (New f vdrs t0, m)) as [[rs1 [p1 m1]] Hr1].
  destruct (run_total cs2 (p1, m1)) as [[rs2 [p2 m2]] Hr2].
  exists rs1, p1, m1, rs2, p2, m2. split; [done|]. split; [done|]. split.
  { rewrite run_app, Hr1; simpl. by rewrite Hr2. }
  apply run_frame in Hr1 as (Hs1 & Hp1 & _ & _). apply run_frame in Hr2 as (Hs2 & Hp2 & _ & _).
  simpl in Hs1, Hp1. rewrite Len_empty in Hs1.
  split_and!; try lia.
  - intros vdr id. rewrite Vote_Len_votes, Vote_Len_polled. lia.
  - intros vdr. split; [|apply Count_nonneg]. rewrite Drop_Len_polled.
    unfold Drop; cbn [votes polled finished start]. lia.
Qed.

(** ** The latch and the metrics *)
Lemma observe_counts r m d :
  observations (observe r m d) = S (observations m) /\
  additions (observe r m d) = S (additions m).
Proof. destruct r; unfold observations, additions; simpl; lia. Qed.

Lemma step_shape c p m r p' m' :
  step c (p, m) = Some (r, (p', m')) ->
  (finished p' = finished p /\ m' = m /\ forall b, r = ReturnedBool b -> b = finished p) \/
  (exists now rs,
      c = CallFinished now /\ finished p = false /\ r = ReturnedBool true /\
      p' = set_finished p /\ m' = observe rs m (time_Since now (start p))).
Proof.
  destruct c as [vdr vote|vdr|t|]; simpl.
  - intros [= <- <- <-]. left. done.
  - intros [= <- <- <-]. left. done.
  - unfold Finished. destruct (finishedAndReason p m t) as [[[[fin code] q] m1]|] eqn:Hf;
      simpl; [|done].
    intros [= <- <- <-].
    apply finishedAndReason_shape in Hf
      as [(-> & _ & -> & ->)|(Hopen & -> & -> & rs & _ & ->)].
    + left. split_and!; [done..|]. by intros b [= <-].
    + right. by exists t, rs.
  - intros [= <- <- <-]. left. done.
Qed.

Lemma run_closed cs p m rs p' m' :
  finished p = true -> run cs (p, m) = Some (rs, (p', m')) ->
  m' = m /\ finished p' = true /\ forall b, ReturnedBool b ∈ rs -> b = true.
Proof.
  revert p m rs. induction cs as [|c cs IH]; intros p m rs Hfin; simpl.
  - intros [= <- <- <-]. split_and!; [done..|]. intros b Hb. by apply elem_of_nil in Hb.
  - destruct (step c (p, m)) as [[r [p1 m1]]|] eqn:Hs; simpl; [|done].
    destruct (run cs (p1, m1)) as [[rs1 [p2 m2]]|] eqn:Hr; simpl; [|done].
    intros [= <- <- <-].
    apply step_shape in Hs as [(Hf1 & -> & Hb1)|(? & ? & _ & Hopen & _)]; [|congruence].
    apply IH in Hr as (-> & Hf2 & Hb2); [|congruence].
    split_and!; [done..|]. intros b [Hb|Hb]%elem_of_cons; [|by apply Hb2].
    symmetry in Hb. apply Hb1 in Hb. congruence.
Qed.

(** C6. Over a run of calls on an open poll, either no [Finished] call
    returns true, the poll stays open and the metrics are untouched; or there
    is a first [Finished] call that returns true: nothing was observed
    before it, that call sets the latch and makes exactly one observation
    (one counter increment and one duration added, for one reason), and
    after it every [Finished] call returns true and the metrics never change
    again. *)
Theorem latch_and_single_observation (cs : list (call NodeID ID)) p m :
  finished p = false ->
  exists rs p' m',
    run cs (p, m) = Some (rs, (p', m')) /\
    (((ReturnedBool true ∉ rs) /\ finished p' = false /\ m' = m) \/
     (exists pre now post rs_pre rs_post p1 r,
         cs = pre ++ CallFinished now :: post /\
         rs = rs_pre ++ ReturnedBool true :: rs_post /\
         run pre (p, m) = Some (rs_pre, (p1, m)) /\
         (ReturnedBool true ∉ rs_pre) /\
         finished p1 = false /\
         step (CallFinished now) (p1, m) = Some (ReturnedBool true, (set_finished p1, m')) /\
         m' = observe r m (time_Since now (start p)) /\
         observations m' = S (observations m) /\
         additions m' = S (additions m) /\
         run post (set_finished p1, m') = Some (rs_post, (p', m')) /\
         (forall b, ReturnedBool b ∈ rs_post -> b = true) /\
         finished p' = true)).
Proof.
  revert p m. induction cs as [|c cs IH]; intros p m Hopen.
  { exists [], p, m. split; [done|]. left. split_and!; [|done..].
    intros Hin. by apply elem_of_nil in Hin. }
  destruct (step_total c (p, m)) as [[r1 [p1 m1]] Hs]. simpl. rewrite Hs. simpl.
  pose proof (step_frame _ _ _ _ _ _ Hs) as (_ & _ & _ & Hstart).
  pose proof Hs as Hshape.
  apply step_shape in Hshape
    as [(Hf1 & -> & Hb1)|(now & r & -> & _ & -> & -> & ->)].
  - destruct (IH p1 m) as (rs & p' & m' & Hrun & Hcases); [congruence|].
    rewrite Hrun. simpl. exists (r1 :: rs), p', m'. split; [done|].
    assert (r1 <> ReturnedBool true) as Hr1.
    { intros ->. specialize (Hb1 true eq_refl). congruence. }
    destruct Hcases as [(Hnone & Hf & ->)|Hsome].
    + left. split_and!; [|done..]. intros [?|?]%elem_of_cons; done.
    + right. destruct Hsome
        as (pre & now & post & rs_pre & rs_post & p2 & r & -> & -> & Hpre & Hno & Hrest).
      exists (c :: pre), now, post, (r1 :: rs_pre), rs_post, p2, r.
      split_and!; try done.
      * simpl. rewrite Hs. simpl. by rewrite Hpre.
      * intros [?|?]%elem_of_cons; done.
      * apply Hrest.
      * apply Hrest.
      * destruct Hrest as (_ & _ & -> & _). by rewrite Hstart.
      * apply Hrest.
      * apply Hrest.
      * apply Hrest.
      * apply Hrest.
      * apply Hrest.
  - destruct (run_total cs (set_finished p, observe r m (time_Since now (start p))))
      as [[rs [p' m']] Hrun].
    rewrite Hrun. simpl.
    destruct (run_closed cs (set_finished p) _ _ _ _ eq_refl Hrun) as (-> & Hf & Hb).
    eexists _, p', _. split; [done|]. right.
    exists [], now, cs, [], rs, p, r.
    destruct (observe_counts r m (time_Since now (start p))) as [Hobs Hadd].
    split_and!; try done. intros Hin. by apply elem_of_nil in Hin.
Qed.

(** ** Two polls side by side *)
Lemma finishedAndReason_ignores_alphaConfidence p q m now :
  confidences p <> [] -> same_but_alphaConfidence p q ->
  exists fin code p' q' m',
    finishedAndReason p m now = Some (fin, code, p', m') /\
    finishedAndReason q m now = Some (fin, code, q', m') /\
    same_but_alphaConfidence p' q'.
Proof.
  intros HC (Hv & Hp & Ha & Hc & Hs & Hf).
  destruct p as [v1 o1 ap1 ac1 C1 s1 f1], q as [v2 o2 ap2 ac2 C2 s2 f2].
  cbn [votes polled alphaPreference confidences start finished] in *. subst.
  set (p := mkPoll v2 o2 ap2 ac1 C2 s2 f2). set (q := mkPoll v2 o2 ap2 ac2 C2 s2 f2).
  assert (forall freq v, shouldTerminateEarlyErrDriven q m now freq v
                         = shouldTerminateEarlyErrDriven p m now freq v) as Hsh by done.
  unfold finishedAndReason.
  cbn [votes polled alphaPreference confidences start finished p q].
  destruct f2. { by eexists _, _, _, _, _. }
  case_decide. { by eexists _, _, _, _, _. }
  case_decide. { by eexists _, _, _, _, _. }
  destruct (decide (len C2 > 0)) as [_|Hn]; [|exfalso; apply Hn, len_pos_iff, HC].
  fold p q. rewrite Hsh.
  match goal with |- context [shouldTerminateEarlyErrDriven p m now ?f ?v] =>
    destruct (shouldTerminateEarlyErrDriven_cases p m now f v HC)
      as (top & c0 & b & _ & _ & _ & ->) end.
  simpl. repeat case_decide; try destruct b; by eexists _, _, _, _, _.
Qed.

Lemma step_ignores_alphaConfidence c p q m :
  confidences p <> [] -> same_but_alphaConfidence p q ->
  exists r p' q' m',
    step c (p, m) = Some (r, (p', m')) /\ step c (q, m) = Some (r, (q', m')) /\
    same_but_alphaConfidence p' q' /\ confidences p' <> [].
Proof.
  intros HC Hsame. pose proof Hsame as (Hv & Hp & Ha & Hc & Hs & Hf).
  destruct c as [vdr vote|vdr|t|]; simpl.
  - eexists _, _, _, _. split; [done|]. split; [done|]. split; [|done].
    unfold same_but_alphaConfidence, Vote; cbn [votes polled alphaPreference confidences
                                                 start finished].
    by rewrite Hv, Hp.
  - eexists _, _, _, _. split; [done|]. split; [done|]. split; [|done].
    unfold same_but_alphaConfidence, Drop; cbn [votes polled alphaPreference confidences
                                                 start finished].
    by rewrite Hp.
  - destruct (finishedAndReason_ignores_alphaConfidence p q m t HC Hsame)
      as (fin & code & p' & q' & m' & Hrp & Hrq & Hsame').
    unfold Finished. rewrite Hrp, Hrq. simpl.
    eexists _, _, _, _. split; [done|]. split; [done|]. split; [done|].
    apply finishedAndReason_shape in Hrp as [(_ & _ & -> & _)|(_ & _ & -> & _)]; done.
  - eexists _, _, _, _. split; [done|]. split; [|done]. unfold Result. by rewrite Hv.
Qed.

Lemma run_ignores_alphaConfidence cs p q m :
  confidences p <> [] -> same_but_alphaConfidence p q ->
  exists rs p' q' m',
    run cs (p, m) = Some (rs, (p', m')) /\ run cs (q, m) = Some (rs, (q', m')) /\
    same_but_alphaConfidence p' q' /\ confidences p' <> [].
Proof.
  revert p q m. induction cs as [|c cs IH]; intros p q m HC Hsame; simpl.
  - by exists [], p, q, m.
  - destruct (step_ignores_alphaConfidence c p q m HC Hsame)
      as (r & p1 & q1 & m1 & -> & -> & Hsame1 & HC1). simpl.
    destruct (IH p1 q1 m1 HC1 Hsame1) as (rs & p2 & q2 & m2 & -> & -> & Hsame2 & HC2).
    simpl. by exists (r :: rs), p2, q2, m2.
Qed.

(** C10. In error-driven mode [alphaConfidence] is never read: two polls
    that differ at most in it answer every run of calls with the same
    replies (the [Finished] results and the [Result] bags), record the same
    observations and stay equal in everything else, and [finishedAndReason]
    returns the same reason on both. The reason early alpha-confidence is
    decided by [freq >= confidences[last]] alone, whatever [alphaConfidence]
    is. *)
Theorem alphaConfidence_is_not_consulted (cs : list (call NodeID ID)) p q m :
  confidences p <> [] -> same_but_alphaConfidence p q ->
  (exists rs p' q' m',
      run cs (p, m) = Some (rs, (p', m')) /\ run cs (q, m) = Some (rs, (q', m')) /\
      same_but_alphaConfidence p' q' /\
      forall now, exists fin code p1 q1 m1,
          finishedAndReason p' m' now = Some (fin, code, p1, m1) /\
          finishedAndReason q' m' now = Some (fin, code, q1, m1)) /\
  (forall now top,
      finished p = false -> bag.Len (polled p) <> 0 ->
      alphaPreference p <= GoInt.add (bag.Len (votes p)) (bag.Len (polled p)) ->
      last (confidences p) = Some top -> (bag.Mode (votes p)).2 >= top ->
      finishedAndReason p m now = Some (outcome (Some early_alpha_conf) p m now)).
Proof.
  intros HC Hsame. split.
  - destruct (run_ignores_alphaConfidence cs p q m HC Hsame)
      as (rs & p' & q' & m' & Hrp & Hrq & Hsame' & HC').
    exists rs, p', q', m'. split_and!; try done. intros now.
    destruct (finishedAndReason_ignores_alphaConfidence p' q' m' now HC' Hsame')
      as (fin & code & p1 & q1 & m1 & H1p & H1q & _).
    by exists fin, code, p1, q1, m1.
  - intros now top Hopen Hrem Hmax Htop Hfreq. unfold finishedAndReason.
    rewrite Hopen, decide_False, decide_False by lia || done.
    destruct (decide (len (confidences p) > 0)) as [_|Hn];
      [|exfalso; apply Hn, len_pos_iff, HC].
    match goal with |- context [shouldTerminateEarlyErrDriven p m now ?f ?v] =>
      destruct (shouldTerminateEarlyErrDriven_cases p m now f v HC)
        as (top' & c0 & b & Htop' & _ & _ & ->) end.
    simpl. rewrite Htop in Htop'. injection Htop' as <-. by rewrite decide_True.
Qed.

Lemma finishedAndReason_one_threshold p q m now :
  single_vs_error_driven p q -> fits p ->
  exists fin code p' q' m',
    finishedAndReason p m now = Some (fin, code, p', m') /\
    finishedAndReason q m now = Some (fin, code, q', m') /\
    single_vs_error_driven p' q'.
Proof.
  intros (Hv & Hp & Ha & Hac & Hs & Hf & HCp & HCq) Hfits.
  pose proof (fits_add p Hfits) as Hadd.
  pose proof (Mode_freq_le_Len (votes p)) as Hfreq.
  pose proof (Len_nonneg (polled p)) as Hrem.
  destruct p as [v1 o1 ap1 ac1 C1 s1 f1], q as [v2 o2 ap2 ac2 C2 s2 f2].
  cbn [votes polled alphaPreference alphaConfidence confidences start finished] in *. subst.
  unfold finishedAndReason, shouldTerminateEarlyErrDriven.
  cbn [votes polled alphaPreference alphaConfidence confidences start finished].
  rewrite Hadd.
  destruct f2. { eexists _, _, _, _, _. split; [reflexivity|]. split; [reflexivity|]. by repeat split. }
  case_decide. { eexists _, _, _, _, _. split; [reflexivity|]. split; [reflexivity|]. by repeat split. }
  case_decide. { eexists _, _, _, _, _. split; [reflexivity|]. split; [reflexivity|]. by repeat split. }
  destruct (decide (len [] > 0)) as [Hn|_]; [unfold len in Hn; simpl in Hn; lia|].
  destruct (decide (len [ac2] > 0)) as [_|Hn]; [|unfold len in Hn; simpl in Hn; lia].
  change (index [ac2] (len [ac2] - 1)) with (Some ac2).
  change (index [ac2] 0) with (Some ac2).
  change (seqZ 0 (len [ac2] - 1)) with (@nil Z).
  cbn [mbind option_bind gapLoop].
  repeat case_decide; try lia;
    (eexists _, _, _, _, _; split; [reflexivity|]; split; [reflexivity|]; by repeat split).
Qed.

Lemma step_one_threshold c p q m :
  single_vs_error_driven p q -> fits p ->
  exists r p' q' m',
    step c (p, m) = Some (r, (p', m')) /\ step c (q, m) = Some (r, (q', m')) /\
    single_vs_error_driven p' q' /\ fits p'.
Proof.
  intros Hrel Hfits. pose proof Hrel as (Hv & Hp & Ha & Hac & Hs & Hf & HCp & HCq).
  assert (forall r p' m', step c (p, m) = Some (r, (p', m')) -> fits p') as Hkeep.
  { intros r p' m' Hstep. apply step_frame in Hstep as (Hsum & _). unfold fits in *. lia. }
  destruct c as [vdr vote|vdr|t|].
  - eexists _, _, _, _. split; [reflexivity|]. split; [reflexivity|].
    split; [|by eapply Hkeep].
    unfold single_vs_error_driven, Vote.
    cbn [votes polled alphaPreference alphaConfidence confidences start finished fst snd].
    by rewrite Hv, Hp.
  - eexists _, _, _, _. split; [reflexivity|]. split; [reflexivity|].
    split; [|by eapply Hkeep].
    unfold single_vs_error_driven, Drop.
    cbn [votes polled alphaPreference alphaConfidence confidences start finished fst snd].
    by rewrite Hp.
  - destruct (finishedAndReason_one_threshold p q m t Hrel Hfits)
      as (fin & code & p' & q' & m' & Hrp & Hrq & Hrel').
    assert (step (CallFinished t) (p, m) = Some (ReturnedBool fin, (p', m'))) as Hstep.
    { simpl. unfold Finished. by rewrite Hrp. }
    exists (ReturnedBool fin), p', q', m'. split; [done|]. split.
    { simpl. unfold Finished. by rewrite Hrq. }
    split; [done|]. by eapply Hkeep.
  - exists (ReturnedBag (Result p)), p, q, m. split; [done|]. split; [|done].
    simpl. unfold Result. by rewrite Hv.
Qed.

Lemma run_one_threshold cs p q m :
  single_vs_error_driven p q -> fits p ->
  exists rs p' q' m',
    run cs (p, m) = Some (rs, (p', m')) /\ run cs (q, m) = Some (rs, (q', m')) /\
    single_vs_error_driven p' q' /\ fits p'.
Proof.
  revert p q m. induction cs as [|c cs IH]; intros p q m Hrel Hfits; simpl.
  - by exists [], p, q, m.
  - destruct (step_one_threshold c p q m Hrel Hfits)
      as (r & p1 & q1 & m1 & -> & -> & Hrel1 & Hfits1). simpl.
    destruct (IH p1 q1 m1 Hrel1 Hfits1) as (rs & p2 & q2 & m2 & -> & -> & Hrel2 & Hfits2).
    simpl. by exists (r :: rs), p2, q2, m2.
Qed.

(** C7. A poll in error-driven mode over the one threshold
    [alphaConfidence] and a poll in single-threshold mode with the same two
    alphas, seeded alike, answer every run of calls with the same replies
    (so [Finished] turns true at the same call and [Result] is the same
    bag), record the same observations (the same reason), and
    [finishedAndReason] returns the same reason on both. The order of the
    two alphas plays no part; the seed's length is a Go int. *)
Theorem single_threshold_equivalence (ap ac : Z) (vdrs : gmultiset NodeID) (t0 : Z) m
    (cs : list (call NodeID ID)) :
  bag.Len vdrs <= GoInt.max_int ->
  exists rs p' q' m',
    run cs (New (mkFactory ap ac []) vdrs t0, m) = Some (rs, (p', m')) /\
    run cs (New (mkFactory ap ac [ac]) vdrs t0, m) = Some (rs, (q', m')) /\
    Result p' = Result q' /\ polled p' = polled q' /\ finished p' = finished q' /\
    forall now, exists fin code p1 q1 m1,
        finishedAndReason p' m' now = Some (fin, code, p1, m1) /\
        finishedAndReason q' m' now = Some (fin, code, q1, m1).
Proof.
  intros Hk.
  destruct (run_one_threshold cs (New (mkFactory ap ac []) vdrs t0)
                              (New (mkFactory ap ac [ac]) vdrs t0) m)
    as (rs & p' & q' & m' & Hrp & Hrq & Hrel & Hfits).
  { unfold single_vs_error_driven, New; simpl. done. }
  { unfold fits, New; simpl. rewrite Len_empty. lia. }
  exists rs, p', q', m'. split; [done|]. split; [done|].
  pose proof Hrel as (Hv & Hp & _ & _ & _ & Hf & _).
  split_and!; try done. intros now.
  destruct (finishedAndReason_one_threshold p' q' m' now Hrel Hfits)
    as (fin & code & p1 & q1 & m1 & H1p & H1q & _).
  by exists fin, code, p1, q1, m1.
Qed.

End PollProps.

(** ** The factory *)
Section FactoryProps.
Context {Registerer error : Type}.
Variable Register : Registerer -> Collector -> Registerer * option error.
Context {NodeID ID : Type} `{Countable NodeID} `{Countable ID} `{Inhabited ID}.

(** C8. [NewEarlyTermNoTraversalFactory] returns an error exactly when the
    registry rejects the counter vector [poll_count], or accepts it and
    rejects the gauge vector [poll_duration]; the error wraps the sentinel of
    that vector and the registry's own error. Otherwise it returns the
    factory, and [New] on that factory returns a poll for every bag of
    validators: open, with no votes, on which no run of calls panics. *)
Theorem factory_construction_errors (ap ac : Z) (reg : Registerer) (confs : list Z) :
  let r1 := Register reg pollCountVec in
  let r2 := Register r1.1 durPollsVec in
  let result := (NewEarlyTermNoTraversalFactory Register ap ac reg confs).2 in
  vec_name pollCountVec = "poll_count" /\ vec_kind pollCountVec = CounterVec /\
  vec_name durPollsVec = "poll_duration" /\ vec_kind durPollsVec = GaugeVec /\
  (forall e,
      result = inl e <->
      (exists cause, r1.2 = Some cause /\ e = Errorf errPollCountVectorMetrics cause) \/
      (exists cause, r1.2 = None /\ r2.2 = Some cause /\
                     e = Errorf errPollDurationVectorMetrics cause)) /\
  ((exists f m, result = inr (f, m)) <-> r1.2 = None /\ r2.2 = None) /\
  (forall f m,
      result = inr (f, m) ->
      f = mkFactory ap ac confs /\
      forall (vdrs : gmultiset NodeID) (now : Z),
        New (ID := ID) f vdrs now = mkPoll ∅ vdrs ap ac confs now false /\
        forall cs : list (call NodeID ID), is_Some (run cs (New f vdrs now, m))).
Proof.
  intros r1 r2 result. subst r1 r2 result.
  unfold NewEarlyTermNoTraversalFactory, newEarlyTermNoTraversalMetrics.
  destruct (Register reg pollCountVec) as [reg1 [e1|]]; simpl.
  { split_and!; try done.
    - intros e. split.
      + intros [= <-]. left. by exists e1.
      + intros [(c & [= <-] & ->)|(c & ? & _)]; done.
    - split; [by intros (f & m & ?)|by intros [? _]]. }
  destruct (Register reg1 durPollsVec) as [reg2 [e2|]]; simpl.
  { split_and!; try done.
    - intros e. split.
      + intros [= <-]. right. by exists e2.
      + intros [(c & ? & _)|(c & _ & [= <-] & ->)]; done.
    - split; [by intros (f & m & ?)|by intros [_ ?]]. }
  split_and!; try done.
  - intros e. split; [done|]. intros [(c & ? & _)|(c & _ & ? & _)]; done.
  - split; [done|]. intros _. by eexists _, _.
  - intros f m [= <- <-]. split; [done|]. intros vdrs now. split; [done|].
    intros cs. apply run_total.
Qed.

End FactoryProps.

(** ** The worked polls *)
Example closed_poll_is_reachable :
  run [CallVote 0%nat 1%nat; CallFinished 5]
      (New (mkFactory 1 1 []) (validators 0 2) 0, zero_metrics)
  = Some ([Returned; ReturnedBool true], (closed_poll, observeEarlyAlphaConf zero_metrics 5)).
Proof. vm_compute. reflexivity. Qed.

(** C3, as claimed, fails: on the finished poll [closed_poll], reached by one
    vote and one [Finished], a vote of the outstanding validator 1 for id 2
    changes the tally and the outstanding bag, and dropping it changes the
    outstanding bag. *)
Lemma finished_poll_still_mutates :
  finished closed_poll = true /\
  votes (Vote closed_poll 1%nat 2%nat) <> votes closed_poll /\
  polled (Vote closed_poll 1%nat 2%nat) <> polled closed_poll /\
  polled (Drop closed_poll 1%nat) <> polled closed_poll /\
  ~ @frozen_once_finished nat nat _ _ _ _.
Proof.
  assert (votes (Vote closed_poll 1%nat 2%nat) <> votes closed_poll) as Hv.
  { intros Heq. apply (f_equal bag.Len) in Heq. vm_compute in Heq. discriminate. }
  assert (polled (Vote closed_poll 1%nat 2%nat) <> polled closed_poll) as Hp.
  { intros Heq. apply (f_equal bag.Len) in Heq. vm_compute in Heq. discriminate. }
  assert (polled (Drop closed_poll 1%nat) <> polled closed_poll) as Hd.
  { intros Heq. apply (f_equal bag.Len) in Heq. vm_compute in Heq. discriminate. }
  split_and!; try done.
  intros Hfrozen. destruct (Hfrozen closed_poll 1%nat 2%nat eq_refl) as [[Heq _] _]. done.
Qed.

(** The scenarios of the design document: alphas 15 and 15 over twenty
    validators, vote ids 1 and 2. *)
Example unanimous_confidence :
  run (votes_for 1 0 14 ++ [CallFinished 3] ++ votes_for 1 14 1 ++ [CallFinished 4; CallResult])
      (New (mkFactory 15 15 []) (validators 0 20) 0, zero_metrics)
  = Some (replicate 14 Returned ++
          [ReturnedBool false; Returned; ReturnedBool true; ReturnedBag (15%nat *: {[+ 1%nat +]})],
          (mkPoll (15%nat *: {[+ 1%nat +]}) (validators 15 5) 15 15 [] 0 true,
           observeEarlyAlphaConf zero_metrics 4)).
Proof. vm_compute. reflexivity. Qed.

Example exhausted_on_split :
  run (votes_for 1 0 10 ++ votes_for 2 10 9 ++ [CallFinished 3] ++ votes_for 2 19 1
       ++ [CallFinished 4])
      (New (mkFactory 15 15 []) (validators 0 20) 0, zero_metrics)
  = Some (replicate 19 Returned ++ [ReturnedBool false; Returned; ReturnedBool true],
          (mkPoll (10%nat *: {[+ 1%nat +]} ⊎ 10%nat *: {[+ 2%nat +]}) ∅ 15 15 [] 0 true,
           observeExhausted zero_metrics 4)).
Proof. vm_compute. reflexivity. Qed.

Example early_fail_via_drops :
  run (drops 0 6 ++ votes_for 1 6 9 ++ [CallFinished 4])
      (New (mkFactory 15 15 []) (validators 0 20) 0, zero_metrics)
  = Some (replicate 15 Returned ++ [ReturnedBool true],
          (mkPoll (9%nat *: {[+ 1%nat +]}) (validators 15 5) 15 15 [] 0 true,
           observeEarlyFail zero_metrics 4)).
Proof. vm_compute. reflexivity. Qed.

Example error_driven_gap :
  run (votes_for 1 0 12 ++ drops 12 2 ++ [CallFinished 3] ++ drops 14 1 ++ [CallFinished 4])
      (New (mkFactory 12 18 [12; 18]) (validators 0 20) 0, zero_metrics)
  = Some (replicate 14 Returned ++ [ReturnedBool false; Returned; ReturnedBool true],
          (set_finished gap_poll, observeEarlyAlphaPref zero_metrics 4)).
Proof. vm_compute. reflexivity. Qed.

Example no_premature_finish :
  run (votes_for 1 0 14 ++ [CallFinished 4])
      (New (mkFactory 15 15 []) (validators 0 20) 0, zero_metrics)
  = Some (replicate 14 Returned ++ [ReturnedBool false],
          (mkPoll (14%nat *: {[+ 1%nat +]}) (validators 14 6) 15 15 [] 0 false,
           zero_metrics)).
Proof. vm_compute. reflexivity. Qed.

Example duplicate_vote_ignored :
  run [CallVote 0%nat 1%nat; CallVote 0%nat 2%nat; CallResult]
      (New (mkFactory 15 15 []) (validators 0 20) 0, zero_metrics)
  = Some ([Returned; Returned; ReturnedBag {[+ 1%nat +]}],
          (mkPoll {[+ 1%nat +]} (validators 1 19) 15 15 [] 0 false, zero_metrics)).
Proof. vm_compute. reflexivity. Qed.

(** ** Instances of the theorems on the worked polls *)
Lemma single_threshold_termination_witness :
  fits preferred_poll /\
  finishedAndReason preferred_poll zero_metrics 9
  = Some (true, 3, set_finished preferred_poll, observeEarlyAlphaPref zero_metrics 9).
Proof.
  assert (fits preferred_poll) as Hfits by (vm_compute; discriminate).
  split; [exact Hfits|].
  destruct (single_threshold_termination preferred_poll zero_metrics 9
              eq_refl eq_refl Hfits) as [Hrun _].
  rewrite Hrun. vm_compute. reflexivity.
Defined.

Lemma error_driven_termination_witness :
  fits gap_poll /\
  error_driven_rule [12; 18] 5 12 12 12 (Some early_alpha_pref) /\
  finishedAndReason gap_poll zero_metrics 9
  = Some (true, 3, set_finished gap_poll, observeEarlyAlphaPref zero_metrics 9).
Proof.
  assert (fits gap_poll) as Hfits by (vm_compute; discriminate).
  assert (confidences gap_poll <> []) as HC by discriminate.
  destruct (error_driven_termination gap_poll zero_metrics 9 HC eq_refl Hfits)
    as (_ & Hiff & _).
  assert (finishedAndReason gap_poll zero_metrics 9
          = Some (outcome (Some early_alpha_pref) gap_poll zero_metrics 9)) as Hrun
    by (vm_compute; reflexivity).
  split; [exact Hfits|]. split; [|exact Hrun].
  apply Hiff in Hrun. vm_compute in Hrun. exact Hrun.
Defined.

Lemma Vote_Drop_on_finished_poll_witness :
  finished closed_poll = true /\
  bag.Count (votes (Vote closed_poll 1%nat 2%nat)) 2%nat = 1 /\
  (votes (Vote closed_poll 0%nat 2%nat) = votes closed_poll /\
   polled (Vote closed_poll 0%nat 2%nat) = polled closed_poll).
Proof.
  split; [reflexivity|]. split.
  - destruct (Vote_Drop_on_finished_poll closed_poll 1%nat 2%nat eq_refl)
      as (_ & _ & _ & Hmoves).
    destruct Hmoves as (_ & _ & ->); [vm_compute; reflexivity|].
    vm_compute. reflexivity.
  - destruct (Vote_Drop_on_finished_poll closed_poll 0%nat 2%nat eq_refl)
      as (_ & Hnoop & _).
    apply Hnoop. vm_compute. reflexivity.
Defined.

Lemma Vote_moves_the_count_witness :
  let p := New (mkFactory 15 15 []) (validators 0 20) 0 in
  votes (Vote (Vote p 0%nat 1%nat) 0%nat 2%nat) = {[+ 1%nat +]} /\
  bag.Len (polled (Vote (Vote p 0%nat 1%nat) 0%nat 2%nat)) = 19.
Proof.
  intros p.
  destruct (Vote_moves_the_count p 0%nat 1%nat) as (_ & _ & Hsecond).
  rewrite Hsecond. split; vm_compute; reflexivity.
Defined.

Lemma accumulation_is_bounded_witness :
  exists rs p' m',
    run (votes_for 1 0 2 ++ drops 2 3 ++ [CallFinished 4; CallResult])
        (New (mkFactory 15 15 []) (validators 0 20) 0, zero_metrics) = Some (rs, (p', m')) /\
    bag.Len (votes p') + bag.Len (polled p') <= 20.
Proof.
  destruct (accumulation_is_bounded (mkFactory 15 15 []) (validators 0 20) 0 zero_metrics
              (votes_for 1 0 2 ++ drops 2 3 ++ [CallFinished 4; CallResult]) [])
    as (rs1 & p1 & m1 & rs2 & p2 & m2 & Hr1 & _ & _ & _ & Hk & _).
  exists rs1, p1, m1. split; [exact Hr1|]. exact Hk.
Defined.

Lemma latch_and_single_observation_witness :
  exists rs p' m',
    run (votes_for 1 0 15 ++ [CallFinished 7; CallVote 15%nat 2%nat; CallFinished 9])
        (New (mkFactory 15 15 []) (validators 0 20) 0, zero_metrics) = Some (rs, (p', m')) /\
    (observations m' <= 1)%nat.
Proof.
  destruct (latch_and_single_observation
              (votes_for 1 0 15 ++ [CallFinished 7; CallVote 15%nat 2%nat; CallFinished 9])
              (New (mkFactory 15 15 []) (validators 0 20) 0) zero_metrics eq_refl)
    as (rs & p' & m' & Hrun & Hcases).
  exists rs, p', m'. split; [exact Hrun|].
  destruct Hcases as [(_ & _ & ->)|Hsome].
  - vm_compute. lia.
  - destruct Hsome as (? & ? & ? & ? & ? & ? & ? & _ & _ & _ & _ & _ & _ & _ & -> & _).
    vm_compute. lia.
Defined.

Lemma single_threshold_equivalence_witness :
  bag.Len (validators 0 20) <= GoInt.max_int /\
  exists rs p' q' m',
    run (votes_for 1 0 12 ++ drops 12 3 ++ [CallFinished 7; CallResult])
        (New (mkFactory 12 18 []) (validators 0 20) 0, zero_metrics) = Some (rs, (p', m')) /\
    run (votes_for 1 0 12 ++ drops 12 3 ++ [CallFinished 7; CallResult])
        (New (mkFactory 12 18 [18]) (validators 0 20) 0, zero_metrics) = Some (rs, (q', m')) /\
    Result p' = Result q'.
Proof.
  assert (bag.Len (validators 0 20) <= GoInt.max_int) as Hk by (vm_compute; discriminate).
  split; [exact Hk|].
  destruct (single_threshold_equivalence 12 18 (validators 0 20) 0 zero_metrics
              (votes_for 1 0 12 ++ drops 12 3 ++ [CallFinished 7; CallResult]) Hk)
    as (rs & p' & q' & m' & Hrp & Hrq & Hres & _).
  exists rs, p', q', m'. split; [exact Hrp|]. split; [exact Hrq|exact Hres].
Defined.

Lemma factory_construction_errors_witness :
  (NewEarlyTermNoTraversalFactory Register_by_name 15 15 ["poll_duration"] []).2
  = inl (Errorf errPollDurationVectorMetrics "poll_duration") /\
  exists f m, (NewEarlyTermNoTraversalFactory Register_by_name 15 15 [] []).2 = inr (f, m).
Proof.
  split.
  - destruct (factory_construction_errors (NodeID := nat) (ID := nat)
                Register_by_name 15 15 ["poll_duration"] [])
      as (_ & _ & _ & _ & Herr & _).
    apply Herr. right. exists "poll_duration". vm_compute. done.
  - destruct (factory_construction_errors (NodeID := nat) (ID := nat)
                Register_by_name 15 15 [] [])
      as (_ & _ & _ & _ & _ & Hok & _).
    apply Hok. vm_compute. done.
Defined.

Lemma Finished_never_panics_witness :
  is_Some (shouldTerminateEarlyErrDriven gap_poll zero_metrics 9 12 17) /\
  shouldTerminateEarlyErrDriven preferred_poll zero_metrics 9 2 3 = None /\
  is_Some (Finished preferred_poll zero_metrics 9).
Proof.
  destruct (Finished_never_panics (NodeID := nat) (ID := nat))
    as (Hsome & Hnone & Hfin & _).
  split; [apply Hsome; discriminate|]. split; [by apply Hnone|]. apply Hfin.
Defined.

Lemma alphaConfidence_is_not_consulted_witness :
  same_but_alphaConfidence (confident_poll 100) (confident_poll 18) /\
  (bag.Mode (votes (confident_poll 100))).2 < alphaConfidence (confident_poll 100) /\
  finishedAndReason (confident_poll 100) zero_metrics 9
  = Some (true, 4, set_finished (confident_poll 100), observeEarlyAlphaConf zero_metrics 9).
Proof.
  assert (same_but_alphaConfidence (confident_poll 100) (confident_poll 18)) as Hsame
    by (by repeat split).
  assert (confidences (confident_poll 100) <> []) as HC by discriminate.
  split; [exact Hsame|]. split; [vm_compute; reflexivity|].
  destruct (alphaConfidence_is_not_consulted [] (confident_poll 100) (confident_poll 18)
              zero_metrics HC Hsame) as [_ Hconf].
  apply (Hconf 9 18); vm_compute; congruence.
Defined.

(** * Further properties of the poll *)
Section BagOrder.
Context {T : Type} `{Countable T} `{Inhabited T}.
Implicit Types (b : gmultiset T) (t : T).

Lemma bag_ext b b' : (forall t, bag.Count b t = bag.Count b' t) -> b = b'.
Proof.
  intros Hc. apply gmultiset_eq. intros t. specialize (Hc t). unfold bag.Count in Hc. lia.
Qed.

Lemma bag_subseteq_Count b b' : b ⊆ b' <-> forall t, bag.Count b t <= bag.Count b' t.
Proof.
  unfold bag.Count. split.
  - intros Hsub t. specialize (Hsub t). lia.
  - intros Hc t. specialize (Hc t). lia.
Qed.

Lemma Mode_freq_mono b b' : b ⊆ b' -> (bag.Mode b).2 <= (bag.Mode b').2.
Proof.
  intros Hsub. destruct (decide (b = ∅)) as [->|Hb].
  - rewrite Mode_empty. apply Mode_freq_nonneg.
  - rewrite <- (Mode_freq_attained b Hb).
    etrans; [|apply Mode_freq_max]. by apply bag_subseteq_Count.
Qed.

Lemma AddCount_grows b t n : b ⊆ bag.AddCount b t n.
Proof.
  apply bag_subseteq_Count. intros t'. rewrite Count_AddCount. case_decide; lia.
Qed.

Lemma Remove_shrinks b t : (bag.Remove b t).1 ⊆ b.
Proof.
  apply bag_subseteq_Count. intros t'. rewrite Count_Remove.
  pose proof (Count_nonneg b t'). case_decide; lia.
Qed.

End BagOrder.

Section PollMore.
Context {NodeID ID : Type} `{Countable NodeID} `{Countable ID} `{Inhabited ID}.
Implicit Types (p q : earlyTermNoTraversalPoll NodeID ID) (m : earlyTermNoTraversalMetrics).
Implicit Types (now freq maxPossibleVotes : Z).

Lemma poll_ext p q :
  votes p = votes q -> polled p = polled q -> alphaPreference p = alphaPreference q ->
  alphaConfidence p = alphaConfidence q -> confidences p = confidences q ->
  start p = start q -> finished p = finished q -> p = q.
Proof. destruct p, q; simpl; congruence. Qed.

Lemma step_grows c p m r p' m' :
  step c (p, m) = Some (r, (p', m')) ->
  votes p ⊆ votes p' /\ polled p' ⊆ polled p /\
  alphaPreference p' = alphaPreference p /\ alphaConfidence p' = alphaConfidence p /\
  confidences p' = confidences p.
Proof.
  destruct c as [vdr vote|vdr|t|]; simpl.
  - intros [= <- <- <-]. unfold Vote; cbn [votes polled alphaPreference alphaConfidence
                                              confidences].
    split_and!; try done; [apply AddCount_grows|apply Remove_shrinks].
  - intros [= <- <- <-]. unfold Drop; cbn [votes polled alphaPreference alphaConfidence
                                              confidences].
    split_and!; try done. apply Remove_shrinks.
  - unfold Finished. destruct (finishedAndReason p m t) as [[[[fin code] q] m1]|] eqn:Hf;
      simpl; [|done].
    intros [= <- <- <-].
    apply finishedAndReason_shape in Hf as [(_ & _ & -> & _)|(_ & _ & -> & _)]; done.
  - intros [= <- <- <-]. done.
Qed.

Lemma run_grows cs p m rs p' m' :
  run cs (p, m) = Some (rs, (p', m')) ->
  votes p ⊆ votes p' /\ polled p' ⊆ polled p /\
  alphaPreference p' = alphaPreference p /\ alphaConfidence p' = alphaConfidence p /\
  confidences p' = confidences p.
Proof.
  revert p m rs. induction cs as [|c cs IH]; intros p m rs; simpl.
  - intros [= <- <- <-]. done.
  - destruct (step c (p, m)) as [[r [p1 m1]]|] eqn:Hs; simpl; [|done].
    destruct (run cs (p1, m1)) as [[rs1 [p2 m2]]|] eqn:Hr; simpl; [|done].
    intros [= <- <- <-]. apply step_grows in Hs. apply IH in Hr.
    destruct Hs as (Hv1 & Hp1 & ? & ? & ?), Hr as (Hv2 & Hp2 & ? & ? & ?).
    split_and!; try congruence; by etrans.
Qed.

(** What each reason code of [finishedAndReason] says about an open poll
    whose lengths fit. *)
Lemma finishedAndReason_code p m now fin code p' m' :
  finished p = false -> fits p ->
  finishedAndReason p m now = Some (fin, code, p', m') ->
  let remaining := bag.Len (polled p) in
  let sum := bag.Len (votes p) + bag.Len (polled p) in
  let freq := (bag.Mode (votes p)).2 in
  (code = 1 -> remaining = 0) /\
  (code = 2 -> remaining <> 0 /\ sum < alphaPreference p) /\
  (code = 3 -> confidences p = [] -> freq >= alphaPreference p /\ sum < alphaConfidence p) /\
  (code = 3 -> confidences p <> [] ->
   freq >= alphaPreference p /\ exists c, c ∈ confidences p /\ sum < c) /\
  (code = 4 -> confidences p = [] -> freq >= alphaConfidence p) /\
  (code = 4 -> confidences p <> [] -> exists top, last (confidences p) = Some top /\ freq >= top) /\
  (fin = false -> remaining <> 0 /\ alphaPreference p <= sum).
Proof.
  intros Hopen Hfits Hrun. cbv zeta.
  destruct (decide (confidences p = [])) as [HC|HC].
  - revert Hrun. unfold finishedAndReason. rewrite Hopen, (fits_add p Hfits), HC.
    rewrite (decide_False (P := len [] > 0)) by (unfold len; simpl; lia).
    repeat case_decide; intros [= <- <- <- <-]; split_and!; intros; done || lia.
  - destruct (finishedAndReason_error_driven p m now HC Hopen Hfits) as (o & Hrule & Hrun').
    rewrite Hrun in Hrun'.
    destruct Hrule as [?|? ?|top ? ? Htop ?|top ? ? Htop ? ?|top c0 ? ? Htop ? ? Hc0 Hgap
                       |top c0 ? ? Htop ? ? Hc0 Hgap];
      simpl in Hrun'; injection Hrun' as -> -> -> ->;
      split_and!; intros; try done; try lia.
    + by exists top.
    + split; [lia|]. destruct Hgap as [?|(i & ci & ci1 & _ & Hci1 & _ & ?)].
      * exists c0. split; [|done]. apply head_Some_elem_of, Hc0.
      * exists ci1. split; [|done]. by eapply list_elem_of_lookup_2.
Qed.

Lemma Mode_count (b : gmultiset ID) : bag.Count b (bag.Mode b).1 = (bag.Mode b).2.
Proof.
  destruct (decide (b = ∅)) as [->|Hb]; [|by apply Mode_freq_attained].
  by rewrite Mode_empty.
Qed.

Lemma closing_code p m now fin code p' m' :
  finishedAndReason p m now = Some (fin, code, p', m') -> code <> 0 ->
  finished p = false /\ fin = true /\ p' = set_finished p.
Proof.
  intros Hrun Hcode.
  apply finishedAndReason_shape in Hrun as [(_ & -> & _)|(Hopen & -> & -> & _)]; done.
Qed.

Lemma run_tally_bound cs p m rs p' m' id :
  run cs (p, m) = Some (rs, (p', m')) ->
  bag.Count (Result p') id <= bag.Len (votes p) + bag.Len (polled p) /\
  (bag.Mode (Result p')).2 <= bag.Len (votes p) + bag.Len (polled p).
Proof.
  intros Hrun. apply run_frame in Hrun as (Hsum & _). unfold Result.
  pose proof (Count_le_Len (votes p') id). pose proof (Mode_freq_le_Len (votes p')).
  pose proof (Len_nonneg (polled p')). lia.
Qed.

(** X1. Early fail is final: when [finishedAndReason] closes a poll with reason
    2, no id reaches [alphaPreference] in the result, whatever calls follow. *)
Theorem early_fail_is_final p m now p' m' (cs : list (call NodeID ID)) rs p'' m'' :
  fits p ->
  finishedAndReason p m now = Some (true, 2, p', m') ->
  run cs (p', m') = Some (rs, (p'', m'')) ->
  (forall id, bag.Count (Result p'') id < alphaPreference p'') /\
  (bag.Mode (Result p'')).2 < alphaPreference p''.
Proof.
  intros Hfits Hclose Hrun.
  destruct (closing_code _ _ _ _ _ _ _ Hclose) as (Hopen & _ & ->); [done|].
  destruct (finishedAndReason_code _ _ _ _ _ _ _ Hopen Hfits Hclose)
    as (_ & Hfail & _). destruct Hfail as [_ Hsum]; [done|].
  pose proof (run_grows _ _ _ _ _ _ Hrun) as (_ & _ & -> & _).
  split; [intros id; pose proof (run_tally_bound _ _ _ _ _ _ id Hrun) as [Hb _]
         |pose proof (run_tally_bound _ _ _ _ _ _ inhabitant Hrun) as [_ Hb]];
    simpl in *; lia.
Qed.

(** X2. Early alpha-preference is final: when [finishedAndReason] closes a poll
    with reason 3, some id has reached [alphaPreference], and there is a
    threshold ([alphaConfidence] without thresholds, one of [confidences]
    with them) that no id reaches in the result, whatever calls follow. *)
Theorem early_alpha_pref_is_final p m now p' m' :
  fits p ->
  finishedAndReason p m now = Some (true, 3, p', m') ->
  bag.Count (Result p) (bag.Mode (Result p)).1 >= alphaPreference p /\
  exists c,
    (confidences p = [] -> c = alphaConfidence p) /\
    (confidences p <> [] -> c ∈ confidences p) /\
    forall (cs : list (call NodeID ID)) rs p'' m'',
      run cs (p', m') = Some (rs, (p'', m'')) ->
      forall id, bag.Count (Result p'') id < c.
Proof.
  intros Hfits Hclose.
  destruct (closing_code _ _ _ _ _ _ _ Hclose) as (Hopen & _ & ->); [done|].
  destruct (finishedAndReason_code _ _ _ _ _ _ _ Hopen Hfits Hclose)
    as (_ & _ & Hsingle & Herr & _).
  unfold Result. rewrite Mode_count.
  assert (forall c, bag.Len (votes p) + bag.Len (polled p) < c ->
          forall (cs : list (call NodeID ID)) rs p'' m'',
            run cs (set_finished p, m') = Some (rs, (p'', m'')) ->
            forall id, bag.Count (votes p'') id < c) as Hbound.
  { intros c Hc cs rs p'' m'' Hrun id.
    pose proof (run_tally_bound _ _ _ _ _ _ id Hrun) as [Hle _]. simpl in Hle.
    unfold Result in Hle. lia. }
  destruct (decide (confidences p = [])) as [HC|HC].
  - destruct (Hsingle eq_refl HC) as [Hfreq Hsum]. split; [done|].
    exists (alphaConfidence p). split_and!; try done. by apply Hbound.
  - destruct (Herr eq_refl HC) as (Hfreq & c & Hin & Hsum). split; [done|].
    exists c. split_and!; try done. by apply Hbound.
Qed.

Lemma finishedAndReason_confident p m now fin p' m' :
  finishedAndReason p m now = Some (fin, 4, p', m') ->
  exists threshold,
    (confidences p = [] -> threshold = alphaConfidence p) /\
    (confidences p <> [] -> last (confidences p) = Some threshold) /\
    (bag.Mode (votes p)).2 >= threshold.
Proof.
  unfold finishedAndReason. destruct (finished p); [done|].
  case_decide; [done|]. case_decide; [done|].
  destruct (decide (len (confidences p) > 0)) as [Hlen|Hlen].
  - assert (confidences p <> []) as HC by by apply len_pos_iff.
    match goal with |- context [shouldTerminateEarlyErrDriven p m now ?f ?v] =>
      destruct (shouldTerminateEarlyErrDriven_cases p m now f v HC)
        as (top & c0 & b & Htop & _ & _ & ->) end.
    simpl. repeat case_decide; try destruct b; intros Heq; simplify_eq;
      exists top; split_and!; done.
  - assert (confidences p = []) as HC.
    { destruct (confidences p) eqn:Heq; [done|]. exfalso. apply Hlen.
      unfold len. simpl. lia. }
    repeat case_decide; intros Heq; simplify_eq;
      exists (alphaConfidence p); split_and!; done.
Qed.

(** X3. Early alpha-confidence is final: when [finishedAndReason] closes a poll
    with reason 4, the id the mode names holds at least the deciding
    threshold ([alphaConfidence] without thresholds, the last of
    [confidences] with them) and keeps at least that many votes in the
    result, whatever calls follow. *)
Theorem early_alpha_conf_is_final p m now p' m' :
  finishedAndReason p m now = Some (true, 4, p', m') ->
  exists threshold,
    (confidences p = [] -> threshold = alphaConfidence p) /\
    (confidences p <> [] -> last (confidences p) = Some threshold) /\
    forall (cs : list (call NodeID ID)) rs p'' m'',
      run cs (p', m') = Some (rs, (p'', m'')) ->
      bag.Count (Result p'') (bag.Mode (Result p)).1 >= threshold.
Proof.
  intros Hclose.
  destruct (closing_code _ _ _ _ _ _ _ Hclose) as (Hopen & _ & ->); [done|].
  destruct (finishedAndReason_confident _ _ _ _ _ _ Hclose) as (th & Hs & He & Hfreq).
  exists th. split_and!; try done. intros cs rs p'' m'' Hrun.
  apply run_grows in Hrun as (Hsub & _). simpl in Hsub.
  rewrite bag_subseteq_Count in Hsub. specialize (Hsub (bag.Mode (votes p)).1).
  rewrite Mode_count in Hsub. unfold Result. lia.
Qed.

Lemma step_addressed c p m r p' m' vdr :
  step c (p, m) = Some (r, (p', m')) -> addresses c vdr ->
  bag.Count (polled p') vdr = 0.
Proof.
  intros Hstep [->|[vote ->]]; simpl in Hstep; injection Hstep as <- <- <-.
  - unfold Drop; cbn [polled]. by rewrite Count_Remove, decide_True.
  - unfold Vote; cbn [polled]. by rewrite Count_Remove, decide_True.
Qed.

Lemma run_addressed cs p m rs p' m' c vdr :
  run cs (p, m) = Some (rs, (p', m')) -> c ∈ cs -> addresses c vdr ->
  bag.Count (polled p') vdr = 0.
Proof.
  revert p m rs. induction cs as [|c0 cs IH]; intros p m rs Hrun Hin Haddr.
  { by apply elem_of_nil in Hin. }
  simpl in Hrun.
  destruct (step c0 (p, m)) as [[r [p1 m1]]|] eqn:Hs; simpl in Hrun; [|done].
  destruct (run cs (p1, m1)) as [[rs1 [p2 m2]]|] eqn:Hr; simpl in Hrun; [|done].
  injection Hrun as <- <- <-.
  apply elem_of_cons in Hin as [->|Hin].
  - pose proof (step_addressed _ _ _ _ _ _ _ Hs Haddr) as Hzero.
    apply run_grows in Hr as (_ & Hsub & _). rewrite bag_subseteq_Count in Hsub.
    specialize (Hsub vdr). pose proof (Count_nonneg (polled p2) vdr). lia.
  - by eapply IH.
Qed.

Lemma Finished_exhausted p m now :
  polled p = ∅ -> exists p' m', Finished p m now = Some (true, p', m') /\ finished p' = true.
Proof.
  intros Hp. unfold Finished, finishedAndReason. destruct (finished p) eqn:Hf.
  - by eexists _, _.
  - rewrite Hp, Len_empty. rewrite decide_True by done. by eexists _, _.
Qed.

(** X4. Once every outstanding validator has voted or been dropped, in any order
    and among any other calls, the outstanding bag is empty and [Finished]
    returns true. *)
Theorem all_answered_then_finished (cs : list (call NodeID ID)) p m :
  (forall vdr, vdr ∈ polled p -> exists c, c ∈ cs /\ addresses c vdr) ->
  exists rs p' m',
    run cs (p, m) = Some (rs, (p', m')) /\ polled p' = ∅ /\
    forall now, exists p'' m'', Finished p' m' now = Some (true, p'', m'').
Proof.
  intros Hall. destruct (run_total cs (p, m)) as [[rs [p' m']] Hrun].
  exists rs, p', m'. split; [done|].
  assert (polled p' = ∅) as Hempty.
  { apply bag_ext. intros vdr. change (bag.Count ∅ vdr) with 0.
    destruct (decide (vdr ∈ polled p)) as [Hin|Hout].
    - destruct (Hall vdr Hin) as (c & Hc & Haddr). by eapply run_addressed.
    - pose proof (run_grows _ _ _ _ _ _ Hrun) as (_ & Hsub & _).
      rewrite bag_subseteq_Count in Hsub. specialize (Hsub vdr).
      rewrite not_elem_of_multiplicity in Hout. unfold bag.Count in *. lia. }
  split; [done|]. intros now.
  destruct (Finished_exhausted p' m' now Hempty) as (p'' & m'' & Hfin & _).
  by exists p'', m''.
Qed.

(** X5. Only the first response of a validator counts: after its vote or its
    drop, a further vote or drop of the same validator leaves the poll as it
    is. *)
Theorem first_response_counts p (vdr : NodeID) (r1 r2 : option ID) :
  respond (respond p (vdr, r1)) (vdr, r2) = respond p (vdr, r1).
Proof.
  assert (forall q, bag.Count (polled q) vdr = 0 -> respond q (vdr, r2) = q) as Hnoop.
  { intros q Hq. destruct r2 as [vote|]; unfold respond, Vote, Drop; cbn [fst snd];
      apply poll_ext; cbn [votes polled alphaPreference alphaConfidence confidences
                           start finished]; try done.
    - rewrite Hq. by apply AddCount_nothing.
    - by apply Remove_absent.
    - by apply Remove_absent. }
  apply Hnoop. destruct r1 as [vote|]; unfold respond, Vote, Drop; cbn [fst snd];
    cbn [polled]; by rewrite Count_Remove, decide_True.
Qed.

Lemma respond_comm p (r1 r2 : NodeID * option ID) :
  r1.1 <> r2.1 -> respond (respond p r1) r2 = respond (respond p r2) r1.
Proof.
  destruct r1 as [v1 [a|]], r2 as [v2 [b|]]; simpl; intros Hne;
    unfold respond, Vote, Drop; cbn [fst snd];
    apply poll_ext;
    cbn [votes polled alphaPreference alphaConfidence confidences start finished];
    try done; apply bag_ext; intros t;
    rewrite ?Count_AddCount, ?Count_Remove, ?Count_AddCount, ?Count_Remove;
    repeat case_decide; subst; try done; lia.
Qed.

Lemma respond_all_perm (rs1 rs2 : list (NodeID * option ID)) :
  rs1 ≡ₚ rs2 -> NoDup rs1.*1 ->
  forall p, foldl respond p rs1 = foldl respond p rs2.
Proof.
  induction 1 as [|r l1 l2 Hperm IH|r1 r2 l|l1 l2 l3 Hp12 IH12 Hp23 IH23]; intros Hnd p.
  - done.
  - simpl. apply IH. rewrite fmap_cons in Hnd. by apply NoDup_cons in Hnd as [_ ?].
  - simpl. rewrite respond_comm; [done|].
    rewrite !fmap_cons in Hnd. apply NoDup_cons in Hnd as [Hnotin _].
    rewrite not_elem_of_cons in Hnotin. by destruct Hnotin.
  - rewrite IH12 by done. apply IH23. by rewrite <- Hp12.
Qed.

(** X6. Arrival order does not matter: responses of distinct validators, applied
    in any two orders, leave the same poll. *)
Theorem arrival_order_is_irrelevant p (rs1 rs2 : list (NodeID * option ID)) :
  rs1 ≡ₚ rs2 -> NoDup rs1.*1 ->
  foldl respond p rs1 = foldl respond p rs2.
Proof. intros Hperm Hnd. by apply respond_all_perm. Qed.

(** X7. Over any run of calls the tally only grows and the outstanding bag only
    shrinks, key by key, and the parameters of the poll never change. *)
Theorem tally_grows_outstanding_shrinks (cs : list (call NodeID ID)) p m :
  exists rs p' m',
    run cs (p, m) = Some (rs, (p', m')) /\
    (forall id, bag.Count (votes p) id <= bag.Count (votes p') id) /\
    (forall vdr, bag.Count (polled p') vdr <= bag.Count (polled p) vdr) /\
    alphaPreference p' = alphaPreference p /\ alphaConfidence p' = alphaConfidence p /\
    confidences p' = confidences p /\ start p' = start p.
Proof.
  destruct (run_total cs (p, m)) as [[rs [p' m']] Hrun].
  exists rs, p', m'. split; [done|].
  pose proof (run_frame _ _ _ _ _ _ Hrun) as (_ & _ & _ & Hstart).
  apply run_grows in Hrun as (Hv & Hp & ? & ? & ?).
  rewrite bag_subseteq_Count in Hv. rewrite bag_subseteq_Count in Hp. split_and!; done.
Qed.

(** X8. The reason code names the handles: a call of [finishedAndReason] either
    returns code 0 and leaves the metrics alone, or returns the code of one
    reason, having incremented the counter of that reason and added the
    duration since [start] to its gauge, every other handle untouched. *)
Theorem reason_code_names_the_handles p m now fin code p' m' :
  finishedAndReason p m now = Some (fin, code, p', m') ->
  (code = 0 /\ m' = m) \/
  exists r, code = reason_code r /\ fin = true /\
    counter_of r m' = Counter_Inc (counter_of r m) /\
    gauge_of r m' = Gauge_Add (gauge_of r m) (time_Since now (start p)) /\
    forall r', r' <> r -> counter_of r' m' = counter_of r' m /\ gauge_of r' m' = gauge_of r' m.
Proof.
  intros Hrun.
  apply finishedAndReason_shape in Hrun as [(_ & -> & _ & ->)|(_ & -> & _ & r & -> & ->)].
  - by left.
  - right. exists r. split_and!; try done; [by destruct r..|].
    intros r' Hne. by destruct r, r'.
Qed.

Lemma finished_polls_insert (ps : list (earlyTermNoTraversalPoll NodeID ID)) i p p' :
  ps !! i = Some p ->
  (finished_polls (<[i := p']> ps) + (if finished p then 1 else 0)
   = finished_polls ps + (if finished p' then 1 else 0))%nat.
Proof.
  unfold finished_polls. revert i. induction ps as [|q ps IH]; intros [|i] Hi;
    simpl in Hi; simplify_eq; simpl.
  - rewrite !filter_cons. destruct (finished p), (finished p');
      repeat case_decide; simpl; done || lia.
  - rewrite !filter_cons. specialize (IH i Hi). case_decide; simpl; lia.
Qed.

Lemma pool_step_counts ic (ps : list (earlyTermNoTraversalPoll NodeID ID)) m r ps' m' :
  pool_step ic (ps, m) = Some (r, (ps', m')) ->
  length ps' = length ps /\
  (observations m' + finished_polls ps = observations m + finished_polls ps')%nat /\
  (additions m' + finished_polls ps = additions m + finished_polls ps')%nat.
Proof.
  unfold pool_step; simpl. destruct (ps !! ic.1) as [p|] eqn:Hp; simpl; [|done].
  destruct (step ic.2 (p, m)) as [[r1 [p1 m1]]|] eqn:Hs; simpl; [|done].
  intros [= <- <- <-]. split; [apply length_insert|].
  pose proof (finished_polls_insert ps ic.1 p p1 Hp) as Hins.
  apply step_shape in Hs as [(Hf & -> & _)|(now & rs & _ & Hopen & _ & -> & ->)].
  - rewrite Hf in Hins. lia.
  - destruct (observe_counts rs m (time_Since now (start p))) as [-> ->].
    rewrite Hopen in Hins. simpl in Hins. lia.
Qed.

(** X9. The polls of one factory share the metrics. Whatever calls are made on
    them, in whatever interleaving, the counters grow by exactly the number
    of polls that became finished, and so do the durations added: one
    observation for each terminated poll. *)
Theorem one_observation_per_finished_poll
    (cs : list (nat * call NodeID ID)) (ps : list (earlyTermNoTraversalPoll NodeID ID)) m :
  Forall (fun ic => (ic.1 < length ps)%nat) cs ->
  exists rs ps' m',
    pool_run cs (ps, m) = Some (rs, (ps', m')) /\ length ps' = length ps /\
    (observations m' + finished_polls ps = observations m + finished_polls ps')%nat /\
    (additions m' + finished_polls ps = additions m + finished_polls ps')%nat.
Proof.
  revert ps m. induction cs as [|ic cs IH]; intros ps m Hcs.
  { by exists [], ps, m. }
  apply Forall_cons in Hcs as [Hic Hcs].
  destruct (lookup_lt_is_Some_2 ps ic.1 Hic) as [p Hp].
  destruct (step_total ic.2 (p, m)) as [[r [p1 m1]] Hs].
  assert (pool_step ic (ps, m) = Some (r, (<[ic.1 := p1]> ps, m1))) as Hstep.
  { unfold pool_step; simpl. rewrite Hp; simpl. by rewrite Hs. }
  pose proof (pool_step_counts _ _ _ _ _ _ Hstep) as (Hlen & Hobs & Hadd).
  destruct (IH (<[ic.1 := p1]> ps) m1) as (rs & ps' & m' & Hrun & Hlen' & Hobs' & Hadd').
  { by rewrite Hlen. }
  exists (r :: rs), ps', m'. simpl. rewrite Hstep; simpl. rewrite Hrun; simpl.
  split_and!; [done|congruence|lia..].
Qed.

Lemma analyzer_step_traces c (a : Analyzer NodeID ID) m out r p' m' :
  step c (poll a, m) = Some (r, (p', m')) ->
  exists lines,
    analyzer_step c (a, m, out) = Some (r, (mkAnalyzer (Name a) p', m', out ++ lines)) /\
    length lines = (if traced c then 1 else 0)%nat /\
    length (filter (fun l => reports_a_reason l = true) lines)
    = (if finished (poll a) then 0 else if finished p' then 1 else 0)%nat.
Proof.
  destruct c as [vdr vote|vdr|t|]; simpl.
  - intros [= <- <- <-]. eexists [_]. split; [done|]. split; [done|].
    rewrite filter_cons, decide_False by done. simpl. by destruct (finished (poll a)).
  - intros [= <- <- <-]. eexists [_]. split; [done|]. split; [done|].
    rewrite filter_cons, decide_False by done. simpl. by destruct (finished (poll a)).
  - unfold Finished, Analyzer_Finished.
    destruct (finishedAndReason (poll a) m t) as [[[[fin code] q] m1]|] eqn:Hf; simpl; [|done].
    intros [= <- <- <-]. eexists [_]. split; [done|]. split; [done|].
    rewrite filter_cons. simpl.
    apply finishedAndReason_shape in Hf
      as [(-> & -> & -> & _)|(Hopen & _ & -> & rs & -> & _)].
    + rewrite decide_False by done. simpl. by destruct (finished (poll a)).
    + rewrite Hopen. simpl. rewrite decide_True; [done|]. by destruct rs.
  - intros [= <- <- <-]. exists []. rewrite app_nil_r. split; [by destruct a|].
    split; [done|]. simpl. by destruct (finished (poll a)).
Qed.

(** X10. The analyzer is transparent: a run of calls through it gives the replies
    of the poll it wraps and leaves that poll and the metrics as a direct run
    does. It keeps its name, appends one line for every call but [Result],
    and exactly one of the lines reports a reason other than 0 when the poll
    becomes finished during the run, none otherwise. *)
Theorem analyzer_is_transparent (cs : list (call NodeID ID)) (a : Analyzer NodeID ID) m out :
  exists rs p' m' lines,
    run cs (poll a, m) = Some (rs, (p', m')) /\
    analyzer_run cs (a, m, out) = Some (rs, (mkAnalyzer (Name a) p', m', out ++ lines)) /\
    length lines = length (filter (fun c => traced c = true) cs) /\
    length (filter (fun l => reports_a_reason l = true) lines)
    = (if finished (poll a) then 0 else if finished p' then 1 else 0)%nat.
Proof.
  revert a m out. induction cs as [|c cs IH]; intros a m out.
  { exists [], (poll a), m, []. rewrite app_nil_r. split; [done|].
    split; [by destruct a|]. split; [done|]. simpl. by destruct (finished (poll a)). }
  destruct (step_total c (poll a, m)) as [[r [p1 m1]] Hs].
  destruct (analyzer_step_traces c a m out r p1 m1 Hs) as (l1 & Ha & Hl1 & Hr1).
  destruct (IH (mkAnalyzer (Name a) p1) m1 (out ++ l1))
    as (rs & p' & m' & l2 & Hrun & Harun & Hl2 & Hr2).
  simpl in Hrun, Harun, Hr2.
  exists (r :: rs), p', m', (l1 ++ l2).
  cbn [run analyzer_run]. rewrite Hs, Ha; simpl. rewrite Hrun, Harun; simpl.
  rewrite (assoc_L (++)). split; [done|]. split; [done|]. split.
  - rewrite length_app, Hl1, Hl2, filter_cons. destruct (traced c); case_decide; simpl; done.
  - rewrite filter_app, length_app, Hr1, Hr2.
    assert (finished (poll a) = true -> finished p1 = true) as Hlatch.
    { intros Hfa. apply step_shape in Hs as [(-> & _)|(? & ? & _ & ? & _)]; congruence. }
    assert (finished p1 = true -> finished p' = true) as Hlatch'.
    { intros Hf1. by destruct (run_closed _ _ _ _ _ _ Hf1 Hrun) as (_ & ? & _). }
    destruct (finished (poll a)), (finished p1), (finished p'); try done;
      (by specialize (Hlatch eq_refl)) || by specialize (Hlatch' eq_refl).
Qed.

End PollMore.

(** * The handles of a factory *)
Section HandlesProps.
Context {Registerer error : Type}.
Variable Register : Registerer -> Collector -> Registerer * option error.
Context {NodeID ID : Type} `{Countable NodeID} `{Countable ID} `{Inhabited ID}.

Lemma run_keeps_labels (cs : list (call NodeID ID)) p m rs p' m' r :
  run cs (p, m) = Some (rs, (p', m')) ->
  counter_labels (counter_of r m') = counter_labels (counter_of r m) /\
  gauge_labels (gauge_of r m') = gauge_labels (gauge_of r m) /\
  (counter_value (counter_of r m) <= counter_value (counter_of r m'))%nat /\
  (length (gauge_added (gauge_of r m)) <= length (gauge_added (gauge_of r m')))%nat.
Proof.
  revert p m rs. induction cs as [|c cs IH]; intros p m rs; simpl.
  - intros [= <- <- <-]. done.
  - destruct (step c (p, m)) as [[r1 [p1 m1]]|] eqn:Hs; simpl; [|done].
    destruct (run cs (p1, m1)) as [[rs1 [p2 m2]]|] eqn:Hr; simpl; [|done].
    intros [= <- <- <-]. apply IH in Hr as (-> & -> & Hc & Hg).
    apply step_shape in Hs as [(_ & -> & _)|(now & r0 & _ & _ & _ & _ & ->)]; [done|].
    revert Hc Hg. destruct r, r0; simpl; intros; split_and!; done || lia.
Qed.

(** X11. The handles a factory's constructor makes start at zero under the label
    [reason=<name>] of their reason, and over any run of calls of a poll
    they keep that label, their counters never decrease and their gauges
    only receive additions. *)
Theorem handles_keep_their_labels (reg reg' : Registerer) m0
    (cs : list (call NodeID ID)) p rs p' m' (r : reason) :
  newEarlyTermNoTraversalMetrics Register reg = (reg', inr m0) ->
  run cs (p, m0) = Some (rs, (p', m')) ->
  counter_value (counter_of r m0) = 0%nat /\ gauge_added (gauge_of r m0) = [] /\
  counter_labels (counter_of r m') = reason_label r /\
  gauge_labels (gauge_of r m') = reason_label r /\
  (exists name, reason_label r = [("reason", name)]) /\
  (counter_value (counter_of r m0) <= counter_value (counter_of r m'))%nat /\
  (length (gauge_added (gauge_of r m0)) <= length (gauge_added (gauge_of r m')))%nat.
Proof.
  unfold newEarlyTermNoTraversalMetrics. intros Hnew Hrun.
  destruct (Register reg pollCountVec) as [reg1 [e1|]]; [done|].
  destruct (Register reg1 durPollsVec) as [reg2 [e2|]]; [done|].
  injection Hnew as <- <-.
  destruct (run_keeps_labels _ _ _ _ _ _ r Hrun) as (-> & -> & Hc & Hg).
  split_and!; try done; try (by destruct r). destruct r; by eexists.
Qed.

End HandlesProps.

(** * The tracker of accepted blocks *)
Section TrackerProps.
Context {NodeID ID : Type} `{Countable NodeID} `{Inhabited ID}.
#[local] Set Warnings "-clear-no-such-hyp".
Implicit Types (a b : tracker.accepted NodeID ID) (n : NodeID) (e : tracker.event NodeID ID).

Lemma apply_event_keeps_frontier_inside a e :
  dom (tracker.frontier a) ⊆ tracker.validators a ->
  dom (tracker.frontier (tracker.apply_event a e))
  ⊆ tracker.validators (tracker.apply_event a e).
Proof.
  intros Hinv. destruct e as [n|n|n w w'|n blk h]; simpl.
  - set_solver.
  - rewrite dom_delete_L. set_solver.
  - done.
  - unfold tracker.SetLastAccepted. case_decide; [|done]. simpl.
    rewrite dom_insert_L. set_solver.
Qed.

Lemma foldl_keeps_frontier_inside (es : list (tracker.event NodeID ID)) a :
  dom (tracker.frontier a) ⊆ tracker.validators a ->
  dom (tracker.frontier (foldl tracker.apply_event a es))
  ⊆ tracker.validators (foldl tracker.apply_event a es).
Proof.
  revert a. induction es as [|e es IH]; intros a Hinv; simpl; [done|].
  by apply IH, apply_event_keeps_frontier_inside.
Qed.

(** X12. After any history of calls on a new tracker, [LastAccepted] answers
    with [true] only for a node that is a validator now. *)
Theorem last_accepted_only_for_validators (es : list (tracker.event NodeID ID)) n :
  (tracker.LastAccepted (tracker.after es) n).2 = true ->
  n ∈ tracker.validators (tracker.after es).
Proof.
  intros Hok. apply (foldl_keeps_frontier_inside es tracker.NewAccepted).
  { simpl. set_solver. }
  apply elem_of_dom. unfold tracker.LastAccepted in Hok. fold (tracker.after es).
  by destruct (tracker.frontier (tracker.after es) !! n).
Qed.

(** X13. [SetLastAccepted] then [LastAccepted]: for a validator the block and the
    height just set come back with [true]; for any other node the call
    changes nothing. The call never changes the validators nor the answer
    for another node. *)
Theorem SetLastAccepted_then_LastAccepted a n (blk : ID) (h : Z) :
  (n ∈ tracker.validators a ->
   tracker.LastAccepted (tracker.SetLastAccepted a n blk h) n = (blk, h, true)) /\
  (n ∉ tracker.validators a -> tracker.SetLastAccepted a n blk h = a) /\
  tracker.validators (tracker.SetLastAccepted a n blk h) = tracker.validators a /\
  (forall n', n' <> n ->
     tracker.LastAccepted (tracker.SetLastAccepted a n blk h) n' = tracker.LastAccepted a n').
Proof.
  unfold tracker.SetLastAccepted, tracker.LastAccepted. split_and!.
  - intros Hin. rewrite decide_True by done. simpl. by rewrite lookup_insert_eq.
  - intros Hout. by rewrite decide_False.
  - by case_decide.
  - intros n' Hne. case_decide; [|done]. simpl. by rewrite lookup_insert_ne.
Qed.

(** X14. Removing a validator forgets its block: [LastAccepted] answers with the
    zero id, 0 and [false], a [SetLastAccepted] for it is ignored, and adding
    it again does not bring the block back. Other nodes keep their answer. *)
Theorem removal_forgets a n (blk : ID) (h : Z) :
  tracker.LastAccepted (tracker.OnValidatorRemoved a n) n = (inhabitant, 0, false) /\
  tracker.SetLastAccepted (tracker.OnValidatorRemoved a n) n blk h
  = tracker.OnValidatorRemoved a n /\
  tracker.LastAccepted (tracker.OnValidatorAdded (tracker.OnValidatorRemoved a n) n) n
  = (inhabitant, 0, false) /\
  (forall n', n' <> n ->
     tracker.LastAccepted (tracker.OnValidatorRemoved a n) n' = tracker.LastAccepted a n').
Proof.
  unfold tracker.LastAccepted, tracker.SetLastAccepted; simpl. split_and!.
  - by rewrite lookup_delete_eq.
  - rewrite decide_False; [done|]. set_solver.
  - by rewrite lookup_delete_eq.
  - intros n' Hne. by rewrite lookup_delete_ne.
Qed.

Lemma apply_event_local a b e n :
  (n ∈ tracker.validators a <-> n ∈ tracker.validators b) ->
  tracker.frontier a !! n = tracker.frontier b !! n ->
  let a' := tracker.apply_event a e in
  let b' := if tracker.concerns n e then tracker.apply_event b e else b in
  (n ∈ tracker.validators a' <-> n ∈ tracker.validators b') /\
  tracker.frontier a' !! n = tracker.frontier b' !! n.
Proof.
  intros Hv Hf. destruct e as [n'|n'|n' w w'|n' blk h]; simpl;
    unfold tracker.SetLastAccepted; case_bool_decide; subst; simpl.
  - split; [set_solver|done].
  - split; [set_solver|done].
  - split; [set_solver|]. by rewrite !lookup_delete_eq.
  - split; [set_solver|]. by rewrite lookup_delete_ne.
  - done.
  - done.
  - repeat case_decide; simpl; try tauto. by rewrite !lookup_insert_eq.
  - case_decide; simpl; [|done]. by rewrite lookup_insert_ne.
Qed.

Lemma foldl_local (es : list (tracker.event NodeID ID)) a b n :
  (n ∈ tracker.validators a <-> n ∈ tracker.validators b) ->
  tracker.frontier a !! n = tracker.frontier b !! n ->
  let a' := foldl tracker.apply_event a es in
  let b' := foldl tracker.apply_event b (filter (fun e => tracker.concerns n e = true) es) in
  (n ∈ tracker.validators a' <-> n ∈ tracker.validators b') /\
  tracker.frontier a' !! n = tracker.frontier b' !! n.
Proof.
  revert a b. induction es as [|e es IH]; intros a b Hv Hf; simpl; [done|].
  destruct (apply_event_local a b e n Hv Hf) as [Hv' Hf'].
  rewrite filter_cons. destruct (tracker.concerns n e); case_decide; try done; simpl;
    by apply IH.
Qed.

(** X15. What the tracker knows about a node depends on the calls that name that
    node and on no other: dropping every other call from the history
    changes neither whether it is a validator nor what [LastAccepted]
    answers for it. *)
Theorem node_history_is_local (es : list (tracker.event NodeID ID)) n :
  let own := filter (fun e => tracker.concerns n e = true) es in
  tracker.LastAccepted (tracker.after es) n = tracker.LastAccepted (tracker.after own) n /\
  (n ∈ tracker.validators (tracker.after es) <-> n ∈ tracker.validators (tracker.after own)).
Proof.
  intros own.
  destruct (foldl_local es tracker.NewAccepted tracker.NewAccepted n) as [Hv Hf]; [done..|].
  split; [|exact Hv]. unfold tracker.LastAccepted, tracker.after. subst own.
  by rewrite Hf.
Qed.

End TrackerProps.

(** * The router's metrics *)
Section RouterProps.
Context {Registerer error : Type}.
Variable RegisterMetric : Registerer -> Metric -> Registerer * option error.

Lemma omap_id_nil (errs : list (option error)) :
  omap id errs = [] <-> Forall (fun e => e = None) errs.
Proof.
  induction errs as [|[e|] errs IH]; simpl.
  - split; [constructor|done].
  - split; [done|]. intros Hall. by apply Forall_cons in Hall as [? _].
  - rewrite Forall_cons, <- IH. tauto.
Qed.

Lemma errors_Join_nil (errs : list (option error)) :
  errors_Join errs = None <-> Forall (fun e => e = None) errs.
Proof.
  rewrite <- omap_id_nil. unfold errors_Join. by destruct (omap id errs).
Qed.

(** X16. [newRouterMetrics] registers its five metrics in the order outstanding,
    longest_running, dropped, request_timeouts, issued_requests, each on the
    registry the one before left, and goes on after a rejection. It always
    returns the metrics; the error is nil exactly when no registration was
    rejected, and otherwise joins the rejections in that order, between one
    and five of them. *)
Theorem newRouterMetrics_registers_all (registerer : Registerer) :
  let result := newRouterMetrics RegisterMetric registerer in
  let rMetrics := result.2.1 in
  let attempts :=
    register_all RegisterMetric registerer
      [outstandingRequests rMetrics; longestRunningRequest rMetrics;
       droppedRequests rMetrics; timeouts rMetrics; issuedRequests rMetrics] in
  metric_name <$> [outstandingRequests rMetrics; longestRunningRequest rMetrics;
                   droppedRequests rMetrics; timeouts rMetrics; issuedRequests rMetrics]
  = ["outstanding"; "longest_running"; "dropped"; "request_timeouts"; "issued_requests"] /\
  result.1 = attempts.1 /\
  (result.2.2 = None <-> Forall (fun e => e = None) attempts.2) /\
  (forall es, result.2.2 = Some es ->
              es = omap id attempts.2 /\ (1 <= length es <= 5)%nat).
Proof.
  intros result rMetrics attempts.
  assert (rMetrics = mkRouterMetrics
            (mkMetric GaugeMetric "outstanding" "Number of outstanding requests (all types)")
            (mkMetric GaugeMetric "longest_running" "Time (in ns) the longest request took")
            (mkMetric CounterMetric "dropped" "Number of dropped requests (all types)")
            (mkMetric CounterMetric "request_timeouts"
                      "Number of times a timeout occurred on a query")
            (mkMetric CounterMetric "issued_requests" "Number of requests we have sent")
          /\ result.1 = attempts.1 /\ result.2.2 = errors_Join attempts.2)
    as (HrM & Hreg & Herr).
  { subst attempts rMetrics result. unfold newRouterMetrics.
    cbn [outstandingRequests longestRunningRequest droppedRequests timeouts issuedRequests].
    repeat match goal with |- context [RegisterMetric ?r ?c] =>
      destruct (RegisterMetric r c) as [? ?] eqn:?;
      cbn [fst snd register_all outstandingRequests longestRunningRequest droppedRequests
           timeouts issuedRequests];
      rewrite ?Heqp, ?Heqp0, ?Heqp1, ?Heqp2, ?Heqp3 end.
    split_and!; reflexivity. }
  split; [by rewrite HrM|]. split; [done|]. rewrite Herr. split.
  - apply errors_Join_nil.
  - intros es Hes. unfold errors_Join in Hes.
    assert (length (omap id attempts.2) <= 5)%nat as Hle.
    { subst attempts. simpl.
      repeat match goal with |- context [RegisterMetric ?r ?c] =>
        destruct (RegisterMetric r c) as [? [?|]]; simpl end; lia. }
    destruct (omap id attempts.2) as [|e0 es0] eqn:Hom; [done|].
    injection Hes as <-. split; [done|]. simpl in *. lia.
Qed.

End RouterProps.

(** * The simulated network *)
Section NetworkProps.
Context {ID : Type} `{Countable ID} {Sampler : Type}.
Variable Sample : Sampler -> Z -> Sampler * option (list Z).

Lemma Len_bag_Add (b : gmultiset ID) (t : ID) : bag.Len (bag_Add b t) = bag.Len b + 1.
Proof. unfold bag_Add. rewrite Len_AddCount. lia. Qed.

Lemma poll_votes_spec (nodes : list ID) (lo hi : Z) (indices : list Z)
    (votes0 : gmultiset ID) :
  Forall (fun idx => 0 <= idx) indices ->
  (Forall (fun idx => idx < Z.of_nat (length nodes)) (in_partition lo hi indices) /\
   exists votes,
     poll_votes nodes lo hi indices votes0 = Some votes /\
     bag.Len votes = bag.Len votes0 + Z.of_nat (length (in_partition lo hi indices)) /\
     forall id, id ∈ votes -> id ∈ votes0 \/ id ∈ nodes) \/
  (Exists (fun idx => Z.of_nat (length nodes) <= idx) (in_partition lo hi indices) /\
   poll_votes nodes lo hi indices votes0 = None).
Proof.
  unfold in_partition. intros Hnn. revert votes0.
  induction Hnn as [|idx indices Hidx Hnn IH]; intros votes0; simpl.
  { left. split; [constructor|]. exists votes0. split; [done|]. split; [lia|]. by left. }
  rewrite filter_cons. destruct (decide (idx < lo \/ idx > hi)) as [Hout|Hin].
  { rewrite decide_False by lia. apply IH. }
  rewrite decide_True by lia.
  destruct (nodes !! Z.to_nat idx) as [pref|] eqn:Hpref; simpl.
  - destruct (IH (bag_Add votes0 pref)) as [[Hall (votes & Hrun & Hlen & Hfrom)]|[Hex Hrun]].
    + left. split.
      { apply Forall_cons. split; [|done]. apply lookup_lt_Some in Hpref. lia. }
      exists votes. split; [done|]. rewrite Len_bag_Add in Hlen. split; [simpl; lia|].
      intros id Hid. destruct (Hfrom id Hid) as [Hold|?]; [|by right].
      unfold bag_Add, bag.AddCount in Hold.
      apply gmultiset_elem_of_disj_union in Hold as [?|Hnew]; [by left|].
      apply gmultiset_elem_of_scalar_mul in Hnew as [_ Hnew].
      apply gmultiset_elem_of_singleton in Hnew as ->. right.
      by eapply list_elem_of_lookup_2.
    + right. split; [by apply Exists_cons_tl|done].
  - right. split; [|done]. apply Exists_cons_hd. apply lookup_ge_None in Hpref. lia.
Qed.

(** X17. [network.poll] panics exactly when the sampling fails or a sampled index
    of the partition lies past the last node; an index outside the partition
    is skipped, in range or not. Otherwise it returns one vote for each
    sampled index inside the partition (bounds included), each the
    preference of a node. The indices are uint64, so none is negative. *)
Theorem network_poll_votes (U : Sampler) (nodes : list ID) (lo hi k : Z) :
  (forall U' indices, Sample U k = (U', Some indices) -> Forall (fun idx => 0 <= idx) indices) ->
  (network_poll Sample U nodes lo hi k = None <->
   (Sample U k).2 = None \/
   exists indices, (Sample U k).2 = Some indices /\
     Exists (fun idx => Z.of_nat (length nodes) <= idx) (in_partition lo hi indices)) /\
  (forall U' votes,
      network_poll Sample U nodes lo hi k = Some (U', votes) ->
      exists indices,
        Sample U k = (U', Some indices) /\
        bag.Len votes = Z.of_nat (length (in_partition lo hi indices)) /\
        forall id, id ∈ votes -> id ∈ nodes).
Proof.
  intros Huint. unfold network_poll.
  destruct (Sample U k) as [U1 [indices|]] eqn:Hsample; simpl.
  2: { split; [split; [by left|done]|done]. }
  specialize (Huint U1 indices eq_refl).
  destruct (poll_votes_spec nodes lo hi indices ∅ Huint)
    as [[Hall (votes & -> & Hlen & Hfrom)]|[Hex ->]]; simpl.
  - split.
    + split; [done|]. intros [?|(? & [= <-] & Hex)]; [done|]. exfalso.
      apply Exists_exists in Hex as (idx & Hin & Hge).
      rewrite Forall_forall in Hall. specialize (Hall idx Hin). lia.
    + intros U' votes' [= <- <-]. exists indices. split; [done|].
      rewrite Len_empty in Hlen. split; [lia|].
      intros id Hid. destruct (Hfrom id Hid) as [Hempty|?]; [|done]. multiset_solver.
  - split; [|done]. split; [|done]. intros _. right. by exists indices.
Qed.

End NetworkProps.

(** * Instances of the further properties *)

(** Nine votes for id 1 after six drops, alphas 15 and 15 over twenty
    validators: five validators outstanding. *)
Lemma early_fail_is_final_witness :
  let p := mkPoll (9%nat *: {[+ 1%nat +]}) (validators 15 5) 15 15 [] 0 false in
  fits p /\
  finishedAndReason p zero_metrics 4
  = Some (true, 2, set_finished p, observeEarlyFail zero_metrics 4) /\
  forall rs p'' m'',
    run (votes_for 1 15 5) (set_finished p, observeEarlyFail zero_metrics 4)
    = Some (rs, (p'', m'')) ->
    bag.Count (Result p'') 1%nat < alphaPreference p''.
Proof.
  intros p.
  assert (fits p) as Hfits by (vm_compute; discriminate).
  assert (finishedAndReason p zero_metrics 4
          = Some (true, 2, set_finished p, observeEarlyFail zero_metrics 4)) as Hclose
    by (vm_compute; reflexivity).
  split; [exact Hfits|]. split; [exact Hclose|]. intros rs p'' m'' Hrun.
  exact (proj1 (early_fail_is_final p zero_metrics 4 _ _ _ rs p'' m'' Hfits Hclose Hrun)
               1%nat).
Defined.

Lemma early_alpha_pref_is_final_witness :
  fits gap_poll /\
  exists c, c ∈ [12; 18] /\
    forall (cs : list (call nat nat)) rs p'' m'',
      run cs (set_finished gap_poll, observeEarlyAlphaPref zero_metrics 9)
      = Some (rs, (p'', m'')) ->
      forall id, bag.Count (Result p'') id < c.
Proof.
  assert (fits gap_poll) as Hfits by (vm_compute; discriminate).
  assert (finishedAndReason gap_poll zero_metrics 9
          = Some (true, 3, set_finished gap_poll, observeEarlyAlphaPref zero_metrics 9))
    as Hclose by (vm_compute; reflexivity).
  split; [exact Hfits|].
  destruct (early_alpha_pref_is_final gap_poll zero_metrics 9 _ _ Hfits Hclose)
    as (_ & c & _ & Hin & Hfinal).
  exists c. split; [apply Hin; discriminate|exact Hfinal].
Defined.

Lemma early_alpha_conf_is_final_witness :
  exists rs p'' m'',
    run (votes_for 2 18 2 ++ [CallFinished 11; CallResult])
        (set_finished (confident_poll 18), observeEarlyAlphaConf zero_metrics 9)
    = Some (rs, (p'', m'')) /\
    bag.Count (Result p'') 1%nat >= 18.
Proof.
  assert (finishedAndReason (confident_poll 18) zero_metrics 9
          = Some (true, 4, set_finished (confident_poll 18),
                  observeEarlyAlphaConf zero_metrics 9))
    as Hclose by (vm_compute; reflexivity).
  destruct (early_alpha_conf_is_final (confident_poll 18) zero_metrics 9 _ _ Hclose)
    as (threshold & _ & Hlast & Hfinal).
  assert (threshold = 18) as -> by (specialize (Hlast ltac:(discriminate)); by injection Hlast).
  destruct (run_total (votes_for 2 18 2 ++ [CallFinished 11; CallResult])
              (set_finished (confident_poll 18), observeEarlyAlphaConf zero_metrics 9))
    as [[rs [p'' m'']] Hrun].
  exists rs, p'', m''. split; [exact Hrun|]. exact (Hfinal _ rs p'' m'' Hrun).
Defined.

Lemma all_answered_then_finished_witness :
  exists rs p' m',
    run [CallVote 0%nat 1%nat; CallDrop 1%nat; CallResult; CallVote 2%nat 1%nat]
        (New (mkFactory 15 15 []) (validators 0 3) 0, zero_metrics) = Some (rs, (p', m')) /\
    polled p' = ∅.
Proof.
  destruct (all_answered_then_finished
              [CallVote 0%nat 1%nat; CallDrop 1%nat; CallResult; CallVote 2%nat 1%nat]
              (New (mkFactory 15 15 []) (validators 0 3) 0) zero_metrics)
    as (rs & p' & m' & Hrun & Hempty & _).
  - intros vdr Hin. simpl in Hin. unfold validators in Hin.
    apply elem_of_list_to_set_disj in Hin. simpl in Hin.
    rewrite !elem_of_cons, elem_of_nil in Hin. unfold addresses.
    destruct Hin as [->|[->|[->|[]]]].
    + exists (CallVote 0%nat 1%nat). split; [repeat constructor|right; by eexists].
    + exists (CallDrop 1%nat). split; [repeat constructor|by left].
    + exists (CallVote 2%nat 1%nat). split; [repeat constructor|right; by eexists].
  - exists rs, p', m'. split; [exact Hrun|exact Hempty].
Defined.

Lemma arrival_order_is_irrelevant_witness :
  foldl respond (New (mkFactory 15 15 []) (validators 0 3) 0)
        [(0%nat, Some 1%nat); (1%nat, None); (2%nat, Some 2%nat)]
  = foldl respond (New (mkFactory 15 15 []) (validators 0 3) 0)
          [(2%nat, Some 2%nat); (0%nat, Some 1%nat); (1%nat, None)].
Proof.
  apply arrival_order_is_irrelevant.
  - apply (bool_decide_unpack _). vm_compute. reflexivity.
  - apply (bool_decide_unpack _). vm_compute. reflexivity.
Defined.

Lemma reason_code_names_the_handles_witness :
  exists p' m',
    finishedAndReason preferred_poll zero_metrics 9 = Some (true, 3, p', m') /\
    counter_of early_alpha_pref m' = mkCounter earlyAlphaPrefLabel 1 /\
    counter_of early_alpha_conf m' = mkCounter earlyAlphaConfLabel 0.
Proof.
  assert (finishedAndReason preferred_poll zero_metrics 9
          = Some (true, 3, set_finished preferred_poll,
                  observeEarlyAlphaPref zero_metrics 9)) as Hrun
    by (vm_compute; reflexivity).
  exists (set_finished preferred_poll), (observeEarlyAlphaPref zero_metrics 9).
  split; [exact Hrun|].
  destruct (reason_code_names_the_handles preferred_poll zero_metrics 9 _ _ _ _ Hrun)
    as [[Hzero _]|(r & Hcode & _ & Hinc & _ & Hother)]; [done|].
  assert (r = early_alpha_pref) as -> by (by destruct r).
  split; [rewrite Hinc; reflexivity|].
  destruct (Hother early_alpha_conf ltac:(discriminate)) as [-> _]. reflexivity.
Defined.

Lemma one_observation_per_finished_poll_witness :
  exists rs ps' m',
    pool_run [(0%nat, CallVote 0%nat 1%nat); (1%nat, CallDrop 0%nat);
              (0%nat, CallFinished 3); (1%nat, CallFinished 4);
              (1%nat, CallDrop 1%nat); (1%nat, CallFinished 5); (0%nat, CallFinished 6)]
             ([New (mkFactory 1 1 []) (validators 0 2) 0;
               New (mkFactory 1 1 []) (validators 0 2) 1], zero_metrics)
    = Some (rs, (ps', m')) /\
    observations m' = finished_polls ps'.
Proof.
  destruct (one_observation_per_finished_poll
              [(0%nat, CallVote 0%nat 1%nat); (1%nat, CallDrop 0%nat);
               (0%nat, CallFinished 3); (1%nat, CallFinished 4);
               (1%nat, CallDrop 1%nat); (1%nat, CallFinished 5); (0%nat, CallFinished 6)]
              [New (mkFactory 1 1 []) (validators 0 2) 0;
               New (mkFactory 1 1 []) (validators 0 2) 1] zero_metrics)
    as (rs & ps' & m' & Hrun & _ & Hobs & _).
  - repeat constructor; simpl; lia.
  - exists rs, ps', m'. split; [exact Hrun|].
    change (observations zero_metrics) with 0%nat in Hobs.
    change (finished_polls _) with 0%nat in Hobs at 1. lia.
Defined.

Lemma handles_keep_their_labels_witness :
  exists rs p' m',
    run (votes_for 1 0 15 ++ [CallFinished 7])
        (New (mkFactory 15 15 []) (validators 0 20) 0, zero_metrics) = Some (rs, (p', m')) /\
    counter_labels (countEarlyAlphaConfPolls m') = [("reason", "early_alpha_conf")].
Proof.
  destruct (run_total (votes_for 1 0 15 ++ [CallFinished 7])
              (New (mkFactory 15 15 []) (validators 0 20) 0, zero_metrics))
    as [[rs [p' m']] Hrun].
  exists rs, p', m'. split; [exact Hrun|].
  assert (newEarlyTermNoTraversalMetrics Register_by_name []
          = (["poll_duration"; "poll_count"], inr zero_metrics)) as Hnew
    by (vm_compute; reflexivity).
  exact (proj1 (proj2 (proj2 (handles_keep_their_labels Register_by_name _ _ _ _ _ _ _ _
                                early_alpha_conf Hnew Hrun)))).
Defined.

Lemma last_accepted_only_for_validators_witness :
  1%nat ∈ tracker.validators
    (tracker.after [tracker.ValidatorAdded 1%nat; tracker.LastAcceptedSet 1%nat 7%nat 10])
  /\ (tracker.LastAccepted
        (tracker.after [tracker.ValidatorAdded 1%nat; tracker.ValidatorRemoved 1%nat;
                        tracker.LastAcceptedSet 1%nat 7%nat 10]) 1%nat).2 = false.
Proof.
  split.
  - apply (last_accepted_only_for_validators (ID := nat)). vm_compute. reflexivity.
  - vm_compute. reflexivity.
Defined.

Lemma network_poll_votes_witness :
  exists votes,
    network_poll (fun (U : unit) (k : Z) => (U, Some [0; 3; 1])) tt [5%nat; 6%nat; 7%nat] 0 1 3
    = Some (tt, votes) /\
    bag.Len votes = 2.
Proof.
  assert (network_poll (fun (U : unit) (k : Z) => (U, Some [0; 3; 1])) tt
                       [5%nat; 6%nat; 7%nat] 0 1 3
          = Some (tt, {[+ 5%nat; 6%nat +]})) as Hpoll by (vm_compute; reflexivity).
  exists {[+ 5%nat; 6%nat +]}. split; [exact Hpoll|].
  destruct (network_poll_votes (fun (U : unit) (k : Z) => (U, Some [0; 3; 1])) tt
              [5%nat; 6%nat; 7%nat] 0 1 3) as [_ Hsome].
  - intros U1 indices [= _ <-]. repeat constructor; lia.
  - destruct (Hsome tt _ Hpoll) as (indices & [= <-] & Hlen & _). exact Hlen.
Defined.
